(** * clover: render helpers, request accessors, handler adapter and routing

    A shallow embedding of the Go packages [clover], [clover/render] and
    [clover/middleware].  Go strings are [string] (byte sequences), byte
    slices are [list byte], [int] is [Z], maps are [gmap], a nil [error]
    is [None].  Functions of the Go standard library that the code calls
    ([json.Marshal], [textproto.CanonicalMIMEHeaderKey], [URL.Query],
    [Request.ParseForm], [regexp]) are section variables. *)

From Stdlib Require Import String Ascii ZArith Decimal DecimalString DecimalZ.
From Stdlib.Strings Require Import Byte.
From stdpp Require Import base option list sorting strings gmap.

(** ** Go primitives *)

Abbreviation bytes := (list byte).

(** [len] of a slice or of a string, as a Go [int]. *)
Definition len {A} (s : list A) : Z := Z.of_nat (length s).

(** [[]byte(s)] *)
Definition bytes_of_string (s : string) : bytes := list_byte_of_string s.

(** [strconv.Itoa] *)
Definition Itoa (i : Z) : string := NilEmpty.string_of_int (Z.to_int i).

(** The number that a decimal numeral stands for, as [Itoa] prints it; used
    to read a stored length back as a number.  It is not [strconv.Atoi],
    which the code does not call: it checks no range and is only applied
    to what [Itoa] prints. *)
Definition Atoi (s : string) : option Z := Z.of_int <$> NilEmpty.int_of_string s.

(** [strings.Join] *)
Fixpoint Join (elems : list string) (sep : string) : string :=
  match elems with
  | [] => ""
  | [e] => e
  | e :: rest => e +:+ sep +:+ Join rest sep
  end.

(** The [error] interface: a value with a description. *)
Record error := mkError { Error : string }.

(** ** Package net/http, as far as the code uses it *)
Module http.

Abbreviation Header := (gmap string (list string)).

Definition StatusOK : Z := 200.
Definition StatusInternalServerError : Z := 500.

Section Header.
Variable CanonicalMIMEHeaderKey : string -> string.

(** [h.Add(key, value)]: append to the values stored under the canonical key. *)
Definition Header_Add (h : Header) (key value : string) : Header :=
  let k := CanonicalMIMEHeaderKey key in
  <[k := (h !!! k) ++ [value]]> h.

(** [h.Values(key)]: the slice stored under the canonical key, nil if none. *)
Definition Header_Values (h : Header) (key : string) : list string :=
  h !!! CanonicalMIMEHeaderKey key.

(** The loop [for _, v := range vs { dst.Add(key, v) }]. *)
Definition add_values (dst : Header) (key : string) (vs : list string) : Header :=
  foldl (fun dst v => Header_Add dst key v) dst vs.

(** The loop [for k, vs := range src] around it, run over the entries of
    [src] in a given order (the last entry of the list first); Go does not
    fix the order in which a map is ranged over. *)
Definition add_entries (entries : list (string * list string)) (dst : Header)
  : Header :=
  foldr (fun kv dst => add_values dst kv.1 kv.2) dst entries.
End Header.

(** A [ResponseWriter] is an interface; it is modelled by what the code can
    do to it: the header map it hands out, the calls it received, and its
    answer to [Write] (the error it returns, given the headers and the
    earlier calls). *)
Inductive Call :=
| CallWriteHeader (statusCode : Z)
| CallWrite (p : bytes).

Record ResponseWriter := mkResponseWriter {
  rw_Header : Header;
  rw_calls : list Call;
  rw_writeErr : Header -> list Call -> bytes -> option error
}.

Definition WriteHeader (w : ResponseWriter) (statusCode : Z) : ResponseWriter :=
  {| rw_Header := rw_Header w;
     rw_calls := rw_calls w ++ [CallWriteHeader statusCode];
     rw_writeErr := rw_writeErr w |}.

Definition Write (w : ResponseWriter) (p : bytes) : ResponseWriter * option error :=
  ({| rw_Header := rw_Header w;
      rw_calls := rw_calls w ++ [CallWrite p];
      rw_writeErr := rw_writeErr w |},
   rw_writeErr w (rw_Header w) (rw_calls w) p).

Definition with_Header (w : ResponseWriter) (h : Header) : ResponseWriter :=
  {| rw_Header := h; rw_calls := rw_calls w; rw_writeErr := rw_writeErr w |}.

(** What a receiver of the calls sees: the status codes passed to
    [WriteHeader] and the bytes passed to [Write], in call order. *)
Definition statuses (cs : list Call) : list Z :=
  omap (fun c => match c with CallWriteHeader s => Some s | _ => None end) cs.

Definition body (cs : list Call) : bytes :=
  mjoin (omap (fun c => match c with CallWrite p => Some p | _ => None end) cs).

(** The calls a writer received during [f], those it had before dropped. *)
Definition calls_during (f : ResponseWriter -> ResponseWriter * option error)
  (w : ResponseWriter) : list Call :=
  drop (length (rw_calls w)) (rw_calls (f w).1).

End http.

(** ** Package clover/render (render/render.go) *)
Module render.
Import http.

Definition HeaderContentTyp : string := "Content-Type".
Definition HeaderContentLen : string := "Content-Length".
Definition HeaderLocation : string := "Location".

Record NopRender := mkNopRender {
  Status : Z;
  Headers : Header
}.

Record JSONRender := mkJSONRender {
  JSONRender_NopRender : NopRender;
  Data : bytes
}.

Record TextRender := mkTextRender {
  TextRender_NopRender : NopRender;
  TextRender_Text : bytes
}.

Record RedirectRender := mkRedirectRender {
  RedirectRender_NopRender : NopRender;
  RedirectRender_Text : bytes
}.

(** A value of the [Render] interface: its [WriteTo] method, closed over
    the receiver. *)
Record Render := mkRender {
  WriteTo : ResponseWriter -> ResponseWriter * option error
}.

Section render.
Variable CanonicalMIMEHeaderKey : string -> string.
Variable Value : Type.
Variable json_Marshal : Value -> bytes * option error.

Definition copyHeaders (dst src : Header) : Header :=
  map_fold (fun k vs dst =>
    foldl (fun dst v => Header_Add CanonicalMIMEHeaderKey dst k v) dst vs) dst src.

Definition NopRender_WriteTo (n : NopRender) (w : ResponseWriter)
  : ResponseWriter * option error :=
  let w := with_Header w (copyHeaders (rw_Header w) (Headers n)) in
  let w := if decide (Status n > 0)%Z
           then WriteHeader w (Status n)
           else WriteHeader w StatusOK in
  (w, None).

Definition JSONRender_WriteTo (j : JSONRender) (w : ResponseWriter)
  : ResponseWriter * option error :=
  let '(w, _) := NopRender_WriteTo (JSONRender_NopRender j) w in
  let '(w, errW) := Write w (Data j) in
  (w, errW).

Definition TextRender_WriteTo (t : TextRender) (w : ResponseWriter)
  : ResponseWriter * option error :=
  let '(w, _) := NopRender_WriteTo (TextRender_NopRender t) w in
  let '(w, errW) := Write w (TextRender_Text t) in
  (w, errW).

Definition RedirectRender_WriteTo (r : RedirectRender) (w : ResponseWriter)
  : ResponseWriter * option error :=
  let '(w, _) := NopRender_WriteTo (RedirectRender_NopRender r) w in
  let '(w, errW) := Write w (RedirectRender_Text r) in
  (w, errW).

Definition JSON (data : Value) : JSONRender :=
  let bf := fst (json_Marshal data) in
  {| JSONRender_NopRender :=
       {| Status := StatusOK;
          Headers := <[HeaderContentTyp := ["application/json; charset=utf-8"]]>
                    (<[HeaderContentLen := [Itoa (len bf)]]> ∅) |};
     Data := bf |}.

Definition Text (text : string) : TextRender :=
  let bf := bytes_of_string text in
  {| TextRender_NopRender :=
       {| Status := StatusOK;
          Headers := <[HeaderContentTyp := ["text/plain; charset=utf-8"]]>
                    (<[HeaderContentLen := [Itoa (len bf)]]> ∅) |};
     TextRender_Text := bf |}.

Definition Redirect (status : Z) (location : string) (text : list string)
  : RedirectRender :=
  let bf := if decide (len text > 0)%Z
            then bytes_of_string (Join text "")
            else bytes_of_string "redirect" in
  {| RedirectRender_NopRender :=
       {| Status := status;
          Headers := <[HeaderContentTyp := ["text/plain; charset=utf-8"]]>
                    (<[HeaderContentLen := [Itoa (len bf)]]>
                    (<[HeaderLocation := [location]]> ∅)) |};
     RedirectRender_Text := bf |}.

(** The pointer types [*JSONRender], [*TextRender] and [*RedirectRender]
    implement [Render]. *)
Definition JSONRender_Render (j : JSONRender) : Render :=
  {| WriteTo := JSONRender_WriteTo j |}.
Definition TextRender_Render (t : TextRender) : Render :=
  {| WriteTo := TextRender_WriteTo t |}.
Definition RedirectRender_Render (r : RedirectRender) : Render :=
  {| WriteTo := RedirectRender_WriteTo r |}.

End render.
Arguments JSON {Value} json_Marshal data.
End render.

(** ** Package clover *)
Module clover.
Import http.

(** *** render.go *)

Definition HeaderContentTyp : string := "Content-Type".
Definition HeaderContentLen : string := "Content-Length".

Record NopRender := mkNopRender {
  Status : Z;
  Headers : Header
}.

Record JSONRender := mkJSONRender {
  JSONRender_NopRender : NopRender;
  Data : bytes
}.

Record TextRender := mkTextRender {
  TextRender_NopRender : NopRender;
  TextRender_Text : bytes
}.

Section render.
Variable CanonicalMIMEHeaderKey : string -> string.
Variable Value : Type.
Variable json_Marshal : Value -> bytes * option error.

Definition copyHeaders (dst src : Header) : Header :=
  map_fold (fun k vs dst =>
    foldl (fun dst v => Header_Add CanonicalMIMEHeaderKey dst k v) dst vs) dst src.

Definition NopRender_WriteTo (n : NopRender) (w : ResponseWriter)
  : ResponseWriter * option error :=
  let w := with_Header w (copyHeaders (rw_Header w) (Headers n)) in
  let w := if decide (Status n > 0)%Z
           then WriteHeader w (Status n)
           else WriteHeader w StatusOK in
  (w, None).

Definition JSONRender_WriteTo (j : JSONRender) (w : ResponseWriter)
  : ResponseWriter * option error :=
  let '(w, _) := NopRender_WriteTo (JSONRender_NopRender j) w in
  let '(w, errW) := Write w (Data j) in
  (w, errW).

Definition TextRender_WriteTo (t : TextRender) (w : ResponseWriter)
  : ResponseWriter * option error :=
  let '(w, _) := NopRender_WriteTo (TextRender_NopRender t) w in
  let '(w, errW) := Write w (TextRender_Text t) in
  (w, errW).

Definition JSON (data : Value) : JSONRender :=
  let bf := fst (json_Marshal data) in
  {| JSONRender_NopRender :=
       {| Status := 0;
          Headers := <[HeaderContentTyp := ["application/json; charset=utf-8"]]>
                    (<[HeaderContentLen := [Itoa (len bf)]]> ∅) |};
     Data := bf |}.

Definition Text (text : string) : TextRender :=
  let bf := bytes_of_string text in
  {| TextRender_NopRender :=
       {| Status := 0;
          Headers := <[HeaderContentTyp := ["text/plain; charset=utf-8"]]>
                    (<[HeaderContentLen := [Itoa (len bf)]]> ∅) |};
     TextRender_Text := bf |}.

End render.
Arguments JSON {Value} json_Marshal data.

(** *** clover.go: the handler adapter *)

Section HandlerFunc.
(** [context.Context] and [*http.Request] are opaque here. *)
Variable Context : Type.
Variable Request : Type.
Variable Request_Context : Request -> Context.
(** The program state a handler may read and change; the response writer
    is not part of it, a handler is not given one. *)
Variable State : Type.

(** [type HandlerFunc func(c context.Context, r *http.Request) render.Render],
    with the state it runs in threaded through. *)
Definition HandlerFunc := Context -> Request -> State -> render.Render * State.

Definition ServeHTTP (h : HandlerFunc) (w : ResponseWriter) (req : Request)
  (s : State) : ResponseWriter * State :=
  let '(r, s) := h (Request_Context req) req s in
  let '(w, err) := render.WriteTo r w in
  match err with
  | Some err =>
      let w := WriteHeader w StatusInternalServerError in
      let '(w, _) := Write w (bytes_of_string (Error err)) in
      (w, s)
  | None => (w, s)
  end.

(** A handler that also counts its invocations, next to its own state. *)
Definition counting (h : HandlerFunc) (c : Context) (r : Request)
  (sk : State * nat) : render.Render * (State * nat) :=
  let '(x, s) := h c r sk.1 in (x, (s, S sk.2)).

End HandlerFunc.

(** *** request.go *)

Abbreviation Values := (gmap string (list string)).

(** [url.URL] and [http.Request], with the fields the wrapper reads. *)
Record URL := mkURL {
  URL_Path : string;
  URL_RawQuery : string
}.

Record http_Request := mkRequest {
  Request_URL : URL;
  Request_RequestURI : string;
  Request_RemoteAddr : string;
  Request_Header : Header;
  Request_PostForm : option Values
}.

(** [type request struct]; a nil [urlQuery] is [None].  [raw] is a pointer:
    what a method does to the request behind it is returned with the
    result. *)
Record request := mkrequest {
  raw : http_Request;
  urlQuery : option Values
}.

Section request.
Variable CanonicalMIMEHeaderKey : string -> string.
(** [url.ParseQuery], its error dropped as [URL.Query] does. *)
Variable url_ParseQuery : string -> Values.
(** [Request.ParseForm] of net/http, its error dropped by the caller. *)
Variable ParseForm : http_Request -> http_Request.

Definition URL_Query (u : URL) : Values := url_ParseQuery (URL_RawQuery u).

(** Indexing a map of slices: the zero value (nil) for a missing key. *)
Definition index (m : Values) (name : string) : list string := m !!! name.

(** The first value stored under a key, if the key has one. *)
Definition first_value (m : Values) (name : string) : option string :=
  m !! name ≫= head.

Definition NewRequest (req : http_Request) : request :=
  {| raw := req; urlQuery := None |}.

Definition Path (req : request) : string := URL_Path (Request_URL (raw req)).
Definition RequestURI (req : request) : string := Request_RequestURI (raw req).
Definition RemoteAddr (req : request) : string := Request_RemoteAddr (raw req).

Definition request_Header (req : request) (name : string) : string * bool :=
  let vs := Header_Values CanonicalMIMEHeaderKey (Request_Header (raw req)) name in
  match vs with
  | [] => ("", false)
  | v :: _ => (v, true)
  end.

Definition HeaderDefault (req : request) (name defaultValue : string) : string :=
  let '(v, _) := request_Header req name in
  if decide (v ≠ "") then v else defaultValue.

Definition Query (req : request) (name : string) : (string * bool) * request :=
  let req :=
    match urlQuery req with
    | None => {| raw := raw req; urlQuery := Some (URL_Query (Request_URL (raw req))) |}
    | Some _ => req
    end in
  let values := index (default ∅ (urlQuery req)) name in
  match values with
  | [] => (("", false), req)
  | v :: _ => ((v, true), req)
  end.

Definition QueryDefault (req : request) (name defaultValue : string)
  : string * request :=
  let '((v, _), req) := Query req name in
  if decide (v ≠ "") then (v, req) else (defaultValue, req).

Definition PostForm (req : request) (name : string) : (string * bool) * request :=
  let req := {| raw := ParseForm (raw req); urlQuery := urlQuery req |} in
  let vs := index (default ∅ (Request_PostForm (raw req))) name in
  match vs with
  | [] => (("", false), req)
  | v :: _ => ((v, true), req)
  end.

Definition PostFormDefault (req : request) (name defaultValue : string)
  : string * request :=
  let '((v, _), req) := PostForm req name in
  if decide (v ≠ "") then (v, req) else (defaultValue, req).

End request.

End clover.

(** ** The routing core (pattern compiler, trie, matcher, match context)

    The files of package clover that hold it (the mux and its tree) are not
    among the sources; the definitions of this module follow sections 3, 4
    and 7 of the specification. *)
Module mux.

(** Registration either succeeds or fails with the reason. *)
Inductive RegistrationError :=
| ErrNoLeadingSlash
| ErrEmptySegment
| ErrUnterminatedBrace
| ErrBadRegex
| ErrWildcardNotLast
| ErrConflict
| ErrDuplicateEndpoint.

Inductive Result (A : Type) :=
| Ok (a : A)
| Err (e : RegistrationError).
Arguments Ok {A} a.
Arguments Err {A} e.

#[export] Instance Result_bind : MBind Result := fun A B f r =>
  match r with
  | Ok a => f a
  | Err e => Err e
  end.

(** *** Strings *)

(** The tokens between the '/' separators; a string without '/' is one token. *)
Fixpoint split_slash (s : string) : list string :=
  match s with
  | EmptyString => [""]
  | String c rest =>
      if Ascii.eqb c "/" then "" :: split_slash rest
      else match split_slash rest with
           | [] => [String c ""]
           | tok :: toks => String c tok :: toks
           end
  end.

Fixpoint contains (c : ascii) (s : string) : bool :=
  match s with
  | EmptyString => false
  | String c' rest => Ascii.eqb c c' || contains c rest
  end.

(** [s] without its last character, when that character is [c]. *)
Fixpoint drop_last (c : ascii) (s : string) : option string :=
  match s with
  | EmptyString => None
  | String c' EmptyString => if Ascii.eqb c c' then Some "" else None
  | String c' rest => String c' <$> drop_last c rest
  end.

(** The parts before and after the first [c] of [s]. *)
Fixpoint cut (c : ascii) (s : string) : option (string * string) :=
  match s with
  | EmptyString => None
  | String c' rest =>
      if Ascii.eqb c c' then Some ("", rest)
      else (fun '(a, b) => (String c' a, b)) <$> cut c rest
  end.

(** [Some p] when [s] is [p] followed by [suffix]. *)
Fixpoint TrimSuffix_opt (s suffix : string) : option string :=
  if String.eqb s suffix then Some ""
  else match s with
       | EmptyString => None
       | String c rest => String c <$> TrimSuffix_opt rest suffix
       end.

(** A path is a '/' followed by its segments; "/" alone has none. *)
Definition split_path (path : string) : option (list string) :=
  match path with
  | String c rest =>
      if Ascii.eqb c "/"
      then Some (if String.eqb rest "" then [] else split_slash rest)
      else None
  | EmptyString => None
  end.

(** *** Data model *)

(** Modelled from the spec: the Segment of section 3 (the pattern compiler
    is not among the sources).  A regexParam carries its name and the
    source text of its expression. *)
Inductive Segment :=
| static (literal : string)
| param (name : string)
| regexParam (name expr : string)
| wildcard.

Inductive Kind := KStatic | KRegexParam | KParam | KWildcard.



Section mux.
(** The handler type and the regular expression engine (Go's regexp). *)
Variable Handler : Type.
Variable regexp_Compile : string -> bool.
Variable regexp_MatchString : string -> string -> bool.

(** Modelled from the spec: the Endpoint of section 3, a handler with the
    pattern that owns it (the trie is not among the sources). *)
Record Endpoint := mkEndpoint {
  ep_handler : Handler;
  ep_pattern : string
}.

Abbreviation EndpointTable := (gmap string Endpoint).

(** Modelled from the spec: the TrieNode of section 3 (the trie is not among
    the sources).  Static children are keyed by their literal, regexParam
    children are kept in registration order, the wildcard child is terminal
    and so is its endpoint table alone. *)
#[local] Set Warnings "-register-all".
Inductive Node := mkNode {
  endpoints : EndpointTable;
  statics : list (string * Node);
  regexes : list ((string * string) * Node);
  paramChild : option (string * Node);
  wildChild : option EndpointTable
}.

Definition empty_node : Node :=
  {| endpoints := ∅; statics := []; regexes := []; paramChild := None;
     wildChild := None |}.

(** Lookup and update of a keyed child list; a new key goes to the end. *)
Fixpoint assoc {K V} `{EqDecision K} (k : K) (l : list (K * V)) : option V :=
  match l with
  | [] => None
  | (k', v) :: l => if decide (k = k') then Some v else assoc k l
  end.

Fixpoint assoc_set {K V} `{EqDecision K} (k : K) (v : V) (l : list (K * V))
  : list (K * V) :=
  match l with
  | [] => [(k, v)]
  | (k', v') :: l =>
      if decide (k = k') then (k, v) :: l else (k', v') :: assoc_set k v l
  end.

(** *** Pattern compiler (section 4.1) *)

(** Modelled from the spec: classification of one token of a pattern (the
    pattern compiler is not among the sources), for the token forms that
    section 4.1 lists.  A token that mixes literal text with a placeholder
    (samples.{articleID} in section 8) is none of these forms; how it is
    stored and tried is not described, and it is refused here. *)
Definition classify (tok : string) (last : bool) : Result Segment :=
  if String.eqb tok "" then Err ErrEmptySegment
  else if String.eqb tok "*" then
    if last then Ok wildcard else Err ErrWildcardNotLast
  else match tok with
       | String "{" inner =>
           match drop_last "}" inner with
           | None => Err ErrUnterminatedBrace
           | Some inner =>
               match cut ":" inner with
               | None =>
                   if contains "{" inner || contains "}" inner
                   then Err ErrUnterminatedBrace else Ok (param inner)
               | Some (name, expr) =>
                   if contains "{" expr || contains "}" expr
                      || contains "{" name || contains "}" name
                      || negb (regexp_Compile expr)
                   then Err ErrBadRegex else Ok (regexParam name expr)
               end
           end
       | _ =>
           if contains "{" tok || contains "}" tok
           then Err ErrUnterminatedBrace else Ok (static tok)
       end.

Fixpoint classify_all (toks : list string) : Result (list Segment) :=
  match toks with
  | [] => Ok []
  | tok :: rest =>
      seg ← classify tok (bool_decide (rest = []));
      segs ← classify_all rest;
      Ok (seg :: segs)
  end.

(** Modelled from the spec: the pattern compiler of section 4.1 (not among
    the sources).  A pattern begins with '/'; "/" alone is the root pattern
    with no segment. *)
Definition compile (pattern : string) : Result (list Segment) :=
  match split_path pattern with
  | None => Err ErrNoLeadingSlash
  | Some toks => classify_all toks
  end.

(** *** Routing trie (section 4.2) *)

(** Modelled from the spec: the endpoint table of section 4.2 (the trie is
    not among the sources); a second endpoint for a method is a conflict. *)
Definition attach (method : string) (ep : Endpoint) (tbl : EndpointTable)
  : Result EndpointTable :=
  match tbl !! method with
  | Some _ => Err ErrDuplicateEndpoint
  | None => Ok (<[method := ep]> tbl)
  end.

(** Modelled from the spec: insertion of section 4.2 (the trie is not among
    the sources).  One segment is consumed per level; the child for it is
    located or created; the endpoint is attached at the last node. *)
Fixpoint insert (segs : list Segment) (method : string) (ep : Endpoint)
  (n : Node) : Result Node :=
  match segs with
  | [] =>
      tbl ← attach method ep (endpoints n);
      Ok (mkNode tbl (statics n) (regexes n) (paramChild n) (wildChild n))
  | static lit :: rest =>
      c ← insert rest method ep (default empty_node (assoc lit (statics n)));
      Ok (mkNode (endpoints n) (assoc_set lit c (statics n)) (regexes n)
            (paramChild n) (wildChild n))
  | regexParam name expr :: rest =>
      c ← insert rest method ep
             (default empty_node (assoc (name, expr) (regexes n)));
      Ok (mkNode (endpoints n) (statics n) (assoc_set (name, expr) c (regexes n))
            (paramChild n) (wildChild n))
  | param name :: rest =>
      match paramChild n with
      | None =>
          c ← insert rest method ep empty_node;
          Ok (mkNode (endpoints n) (statics n) (regexes n) (Some (name, c))
                (wildChild n))
      | Some (name', c) =>
          if decide (name = name') then
            c ← insert rest method ep c;
            Ok (mkNode (endpoints n) (statics n) (regexes n) (Some (name, c))
                  (wildChild n))
          else Err ErrConflict
      end
  | wildcard :: rest =>
      match rest with
      | [] =>
          tbl ← attach method ep (default ∅ (wildChild n));
          Ok (mkNode (endpoints n) (statics n) (regexes n) (paramChild n)
                (Some tbl))
      | _ :: _ => Err ErrWildcardNotLast
      end
  end.

(** *** Match context (section 4.5) *)

Abbreviation Bindings := (list (string * string)).

(** Modelled from the spec: the bindings of the match context, section 4.5
    (not among the sources).  A binding is appended; an anonymous regexParam
    binds nothing. *)
Definition bind_param (name value : string) (binds : Bindings) : Bindings :=
  if String.eqb name "" then binds else binds ++ [(name, value)].

(** Modelled from the spec: parameter lookup of section 4.5 (the match
    context is not among the sources): the bindings are scanned in reverse
    insertion order. *)
Definition URLParam (binds : Bindings) (name : string) : option string :=
  assoc name (reverse binds).

(** *** Matcher (section 4.3) *)

(** Modelled from the spec: the three serve-time outcomes of section 7 (the
    matcher is not among the sources). *)
Inductive Outcome :=
| Matched (ep : Endpoint) (params : Bindings)
| MethodNotAllowed (allowed : gset string)
| NotFound.

(** Modelled from the spec: termination of section 4.3 (the matcher is not
    among the sources), when the cursor is exhausted at a node with this
    endpoint table. *)
Definition terminal (method : string) (tbl : EndpointTable) (binds : Bindings)
  : Outcome :=
  match tbl !! method with
  | Some ep => Matched ep binds
  | None => if decide (tbl = ∅) then NotFound else MethodNotAllowed (dom tbl)
  end.

(** Modelled from the spec: backtracking of section 4.3 (the matcher is not
    among the sources).  An alternative is tried after one that did not
    match; a recorded method mismatch is kept unless the alternative
    matches. *)
Definition orelse (a b : Outcome) : Outcome :=
  match a with
  | Matched _ _ => a
  | MethodNotAllowed _ =>
      match b with
      | Matched _ _ => b
      | _ => a
      end
  | NotFound => b
  end.

Definition first_outcome (os : list Outcome) : Outcome := foldr orelse NotFound os.

(** Modelled from the spec: what can be tried for a segment at a node
    (section 4.3; the matcher is not among the sources): a child to descend
    into, or the wildcard child, which ends the match. *)
Inductive Candidate :=
| descend (k : Kind) (child : Node) (binds : Bindings)
| finish (tbl : EndpointTable) (binds : Bindings).


Definition regex_candidates (s : string) (binds : Bindings)
  (rs : list ((string * string) * Node)) : list Candidate :=
  omap (fun '((name, expr), c) =>
          if regexp_MatchString expr s
          then Some (descend KRegexParam c (bind_param name s binds))
          else None) rs.

(** Modelled from the spec: the precedence contract of sections 4.2 and 4.3
    (the matcher is not among the sources): static, then each regexParam
    child in order, then param, then wildcard, which takes the whole
    remainder of the path. *)
Definition candidates (n : Node) (s : string) (rest : list string)
  (binds : Bindings) : list Candidate :=
  match assoc s (statics n) with
  | Some c => [descend KStatic c binds]
  | None => []
  end
  ++ regex_candidates s binds (regexes n)
  ++ match paramChild n with
     | Some (name, c) => [descend KParam c (bind_param name s binds)]
     | None => []
     end
  ++ match wildChild n with
     | Some tbl => [finish tbl (bind_param "*" (Join (s :: rest) "/") binds)]
     | None => []
     end.

(** Modelled from the spec: the matcher of section 4.3 (not among the
    sources).  The candidates are tried in order, with backtracking. *)
Fixpoint match_node (method : string) (segs : list string) (n : Node)
  (binds : Bindings) {struct segs} : Outcome :=
  match segs with
  | [] => terminal method (endpoints n) binds
  | s :: rest =>
      first_outcome
        (map (fun c =>
                match c with
                | descend _ child b => match_node method rest child b
                | finish tbl b => terminal method tbl b
                end)
           (candidates n s rest binds))
  end.

Definition try_candidate (method : string) (rest : list string) (c : Candidate)
  : Outcome :=
  match c with
  | descend _ child b => match_node method rest child b
  | finish tbl b => terminal method tbl b
  end.

(** Modelled from the spec: matching a request path (section 4.3); a path
    that does not begin with '/' matches nothing. *)
Definition match_path (root : Node) (method path : string) : Outcome :=
  match split_path path with
  | Some segs => match_node method segs root []
  | None => NotFound
  end.

(** *** Router facade (section 4.6), middleware chain (section 4.4) *)

(** Modelled from the spec: what serving a request resolves to, before the
    handler runs (section 7; the mux is not among the sources). *)
Definition Serve := string -> string -> Outcome.

(** Modelled from the spec: the router facade of section 4.6 (the mux is not
    among the sources), its middleware list and its trie. *)
Record Mux := mkMux {
  middlewares : list (Serve -> Serve);
  tree : Node
}.

Definition NewRouter : Mux := {| middlewares := []; tree := empty_node |}.

(** Modelled from the spec: [Use] appends a middleware to the list of the
    scope (section 4.4; the mux is not among the sources). *)
Definition Use (mx : Mux) (mw : Serve -> Serve) : Mux :=
  {| middlewares := middlewares mx ++ [mw]; tree := tree mx |}.

(** Modelled from the spec: registration of a handler for one method
    (section 4.6; the mux is not among the sources). *)
Definition Method (mx : Mux) (method pattern : string) (h : Handler)
  : Result Mux :=
  segs ← compile pattern;
  t ← insert segs method (mkEndpoint h pattern) (tree mx);
  Ok {| middlewares := middlewares mx; tree := t |}.

(** Modelled from the spec: the middleware chain of section 4.4 (the mux is
    not among the sources); it wraps the router, the first registered
    middleware outermost. *)
Definition chain (mws : list (Serve -> Serve)) (h : Serve) : Serve :=
  foldr (fun mw next => mw next) h mws.

(** Modelled from the spec: serving a request (section 2, data flow; the
    mux is not among the sources): the chain runs, then the path is matched. *)
Definition route (mx : Mux) : Serve :=
  chain (middlewares mx) (match_path (tree mx)).

(** The terminal endpoint tables a path can reach from a node. *)
Inductive reaches : Node -> list string -> EndpointTable -> Prop :=
| reaches_here n :
    reaches n [] (endpoints n)
| reaches_static n s rest c tbl :
    assoc s (statics n) = Some c ->
    reaches c rest tbl -> reaches n (s :: rest) tbl
| reaches_regex n s rest name expr c tbl :
    ((name, expr), c) ∈ regexes n ->
    regexp_MatchString expr s = true ->
    reaches c rest tbl -> reaches n (s :: rest) tbl
| reaches_param n s rest name c tbl :
    paramChild n = Some (name, c) ->
    reaches c rest tbl -> reaches n (s :: rest) tbl
| reaches_wild n s rest tbl :
    wildChild n = Some tbl -> reaches n (s :: rest) tbl.

(** The tables a candidate leads to. *)
Definition via (rest : list string) (c : Candidate) (tbl : EndpointTable) : Prop :=
  match c with
  | descend _ child _ => reaches child rest tbl
  | finish t _ => t = tbl
  end.


Definition is_matched (o : Outcome) : bool :=
  match o with Matched _ _ => true | _ => false end.
Definition is_not_allowed (o : Outcome) : bool :=
  match o with MethodNotAllowed _ => true | _ => false end.
Definition is_not_found (o : Outcome) : bool :=
  match o with NotFound => true | _ => false end.

(** What an outcome says about the tables [R] that the path reaches: a
    match comes from a reached table with an endpoint for the method; a
    method mismatch carries the methods of a reached table that has
    endpoints, and no reached table has one for the method; not found
    means that no reached table has any endpoint. *)
Definition resolves (method : string) (R : EndpointTable -> Prop) (o : Outcome)
  : Prop :=
  match o with
  | Matched ep _ => exists tbl, R tbl /\ tbl !! method = Some ep
  | MethodNotAllowed allowed =>
      (exists tbl, R tbl /\ dom tbl = allowed /\ tbl <> ∅)
      /\ (forall tbl, R tbl -> tbl !! method = None)
  | NotFound => forall tbl, R tbl -> tbl = ∅
  end.



End mux.

(** *** The URLFormat middleware *)

(** Modelled from the spec: the extension-stripping operation of the
    URLFormat middleware (its file is not among the sources; only its test
    is).  Section 8 says of it that a trailing .json or .xml is trimmed
    from the path and that stripping a stripped path truncates nothing
    more; so such suffixes are trimmed until none is left.  Each step
    shortens the path, and the length of the path is fuel enough. *)
Fixpoint strip_fuel (fuel : nat) (path : string) : string :=
  match fuel with
  | 0 => path
  | S fuel =>
      match TrimSuffix_opt path ".json" with
      | Some p => strip_fuel fuel p
      | None =>
          match TrimSuffix_opt path ".xml" with
          | Some p => strip_fuel fuel p
          | None => path
          end
      end
  end.

Definition strip_format (path : string) : string :=
  strip_fuel (String.length path) path.


(** Modelled from the spec: the middleware strips before the router matches. *)
Definition URLFormat {Handler} (next : Serve Handler) : Serve Handler :=
  fun method path => next method (strip_format path).

End mux.

(** ** Package clover/middleware (middleware/profiler.go) *)
Module middleware.
Import http.

(** The line feed of the format strings. *)
Definition LF : string := String "010"%char EmptyString.

(** [expvar.KeyValue], its value as the [String] method of the variable
    prints it (the verb [%s]). *)
Record KeyValue := mkKeyValue {
  Key : string;
  Value : string
}.

Section expVars.
Variable CanonicalMIMEHeaderKey : string -> string.
(** [strconv.Quote], which the verb [%q] applies to a string. *)
Variable Quote : string -> string.

(** [h.Set(key, value)]: the canonical key now holds [value] alone. *)
Definition Header_Set (h : Header) (key value : string) : Header :=
  <[CanonicalMIMEHeaderKey key := [value]]> h.

(** [fmt.Fprintf(w, ...)], given the formatted text: one [Write], whose
    result every caller here drops. *)
Definition Fprintf (w : ResponseWriter) (text : string) : ResponseWriter :=
  (Write w (bytes_of_string text)).1.

(** The function that [expVars] passes to [expvar.Do]; the variable
    [first] and the writer are those of [expVars]. *)
Definition expVars_each (st : bool * ResponseWriter) (kv : KeyValue)
  : bool * ResponseWriter :=
  let '(first, w) := st in
  let w := if negb first then Fprintf w ("," +:+ LF) else w in
  let first := false in
  let w := Fprintf w (Quote (Key kv) +:+ ": " +:+ Value kv) in
  (first, w).

(** [expVars]; [vars] are the exported variables in the order in which
    [expvar.Do] visits them. *)
Definition expVars (vars : list KeyValue) (w : ResponseWriter) : ResponseWriter :=
  let first := true in
  let w := with_Header w (Header_Set (rw_Header w) "Content-Type" "application/json") in
  let w := Fprintf w ("{" +:+ LF) in
  let '(_, w) := foldl expVars_each (first, w) vars in
  Fprintf w (LF +:+ "}" +:+ LF).

(** One variable as it is printed, and the text of the loop from a given
    value of [first]. *)
Definition entry (kv : KeyValue) : string := Quote (Key kv) +:+ ": " +:+ Value kv.

Fixpoint loop_text (first : bool) (vars : list KeyValue) : string :=
  match vars with
  | [] => ""
  | kv :: rest =>
      (if first then "" else "," +:+ LF) +:+ entry kv +:+ loop_text false rest
  end.

End expVars.
End middleware.

(** * Properties *)

(** ** Go primitives *)

Lemma Atoi_Itoa (i : Z) : Atoi (Itoa i) = Some i.
Proof.
  unfold Atoi, Itoa. rewrite NilEmpty.isi. simpl. f_equal. apply DecimalZ.of_to.
Qed.

(** ** Renders *)

Section render_facts.
Import http.
Variable CanonicalMIMEHeaderKey : string -> string.
Variable Value : Type.
Variable json_Marshal : Value -> bytes * option error.

Lemma calls_during_app f w cs :
  rw_calls (f w).1 = rw_calls w ++ cs -> calls_during f w = cs.
Proof. unfold calls_during. intros ->. by rewrite drop_app_length. Qed.

Lemma body_WriteHeader_Write s p : body [CallWriteHeader s; CallWrite p] = p.
Proof. unfold body. simpl. apply app_nil_r. Qed.

(** Values added under a key are appended to those stored under its
    canonical form; other keys are untouched. *)
Lemma lookup_add_values (dst : Header) key vs k :
  add_values CanonicalMIMEHeaderKey dst key vs !! k
  = if decide (CanonicalMIMEHeaderKey key = k)
    then match vs with [] => dst !! k | _ => Some (dst !!! k ++ vs) end
    else dst !! k.
Proof.
  unfold add_values. revert dst. induction vs as [|v vs IH]; intros dst; simpl.
  - by case_decide.
  - rewrite IH. unfold Header_Add. case_decide as Hk.
    + subst k. rewrite lookup_total_insert_eq.
      destruct vs; [by rewrite lookup_insert_eq | by rewrite <- app_assoc].
    + by rewrite lookup_insert_ne.
Qed.

Lemma add_values_comm (dst : Header) k1 vs1 k2 vs2 :
  CanonicalMIMEHeaderKey k1 <> CanonicalMIMEHeaderKey k2 ->
  add_values CanonicalMIMEHeaderKey
    (add_values CanonicalMIMEHeaderKey dst k2 vs2) k1 vs1
  = add_values CanonicalMIMEHeaderKey
      (add_values CanonicalMIMEHeaderKey dst k1 vs1) k2 vs2.
Proof.
  intros Hne. apply map_eq. intros k.
  rewrite !lookup_add_values, !lookup_total_alt, !lookup_add_values.
  repeat case_decide; congruence.
Qed.

(** [copyHeaders] does not depend on the order in which the source map is
    ranged over, when its keys have distinct canonical forms. *)
Lemma copyHeaders_any_order dst (src : Header) entries :
  entries ≡ₚ map_to_list src ->
  (forall k1 k2, is_Some (src !! k1) -> is_Some (src !! k2) ->
     CanonicalMIMEHeaderKey k1 = CanonicalMIMEHeaderKey k2 -> k1 = k2) ->
  add_entries CanonicalMIMEHeaderKey entries dst
  = render.copyHeaders CanonicalMIMEHeaderKey dst src.
Proof.
  intros Hperm Hinj. unfold render.copyHeaders, add_entries.
  rewrite map_fold_foldr. symmetry.
  rewrite (foldr_ext _
             (fun kv dst => add_values CanonicalMIMEHeaderKey dst kv.1 kv.2)
             dst dst (map_to_list src) (map_to_list src));
    [| by intros [??] ? | done | done].
  apply (foldr_permutation eq
           (fun kv dst => add_values CanonicalMIMEHeaderKey dst kv.1 kv.2) dst
           (map_to_list src) entries); [| by symmetry].
  intros j1 [k1 vs1] j2 [k2 vs2] b Hj H1 H2. simpl.
  apply add_values_comm. intros Hc.
  assert (k1 = k2) as <-.
  { apply Hinj; [| | done].
    - exists vs1. eapply elem_of_map_to_list, list_elem_of_lookup_2, H1.
    - exists vs2. eapply elem_of_map_to_list, list_elem_of_lookup_2, H2. }
  pose proof (NoDup_fst_map_to_list src) as Hnd.
  apply Hj. eapply NoDup_lookup; [exact Hnd | |];
    rewrite list_lookup_fmap; [by rewrite H1 | by rewrite H2].
Qed.

(** The two packages copy headers in the same way. *)
Lemma copyHeaders_same dst src :
  clover.copyHeaders CanonicalMIMEHeaderKey dst src
  = render.copyHeaders CanonicalMIMEHeaderKey dst src.
Proof. reflexivity. Qed.

(** [NopRender.WriteTo] makes one call, [WriteHeader], with the stored
    status when it is positive and with 200 otherwise, and reports no error. *)
Lemma render_NopRender_WriteTo_calls n w :
  let r := render.NopRender_WriteTo CanonicalMIMEHeaderKey n w in
  rw_calls r.1
  = rw_calls w ++ [CallWriteHeader (if decide (render.Status n > 0)%Z
                                    then render.Status n else 200%Z)]
  /\ rw_Header r.1
     = render.copyHeaders CanonicalMIMEHeaderKey (rw_Header w) (render.Headers n)
  /\ rw_writeErr r.1 = rw_writeErr w
  /\ r.2 = None.
Proof. unfold render.NopRender_WriteTo. simpl. by case_decide. Qed.

Lemma clover_NopRender_WriteTo_calls n w :
  let r := clover.NopRender_WriteTo CanonicalMIMEHeaderKey n w in
  rw_calls r.1
  = rw_calls w ++ [CallWriteHeader (if decide (clover.Status n > 0)%Z
                                    then clover.Status n else 200%Z)]
  /\ rw_Header r.1
     = clover.copyHeaders CanonicalMIMEHeaderKey (rw_Header w) (clover.Headers n)
  /\ rw_writeErr r.1 = rw_writeErr w
  /\ r.2 = None.
Proof. unfold clover.NopRender_WriteTo. simpl. by case_decide. Qed.

(** A render with a body makes two calls: [WriteHeader], then [Write] of
    the body. *)
Lemma render_JSONRender_WriteTo_calls j w :
  calls_during (render.JSONRender_WriteTo CanonicalMIMEHeaderKey j) w
  = [CallWriteHeader (let s := render.Status (render.JSONRender_NopRender j) in
                      if decide (s > 0)%Z then s else 200%Z);
     CallWrite (render.Data j)].
Proof.
  apply calls_during_app. unfold render.JSONRender_WriteTo, render.NopRender_WriteTo.
  simpl. case_decide; simpl; by rewrite <- app_assoc.
Qed.

Lemma render_TextRender_WriteTo_calls t w :
  calls_during (render.TextRender_WriteTo CanonicalMIMEHeaderKey t) w
  = [CallWriteHeader (let s := render.Status (render.TextRender_NopRender t) in
                      if decide (s > 0)%Z then s else 200%Z);
     CallWrite (render.TextRender_Text t)].
Proof.
  apply calls_during_app. unfold render.TextRender_WriteTo, render.NopRender_WriteTo.
  simpl. case_decide; simpl; by rewrite <- app_assoc.
Qed.

Lemma render_RedirectRender_WriteTo_calls r w :
  calls_during (render.RedirectRender_WriteTo CanonicalMIMEHeaderKey r) w
  = [CallWriteHeader (let s := render.Status (render.RedirectRender_NopRender r) in
                      if decide (s > 0)%Z then s else 200%Z);
     CallWrite (render.RedirectRender_Text r)].
Proof.
  apply calls_during_app. unfold render.RedirectRender_WriteTo, render.NopRender_WriteTo.
  simpl. case_decide; simpl; by rewrite <- app_assoc.
Qed.

Lemma clover_JSONRender_WriteTo_calls j w :
  calls_during (clover.JSONRender_WriteTo CanonicalMIMEHeaderKey j) w
  = [CallWriteHeader (let s := clover.Status (clover.JSONRender_NopRender j) in
                      if decide (s > 0)%Z then s else 200%Z);
     CallWrite (clover.Data j)].
Proof.
  apply calls_during_app. unfold clover.JSONRender_WriteTo, clover.NopRender_WriteTo.
  simpl. case_decide; simpl; by rewrite <- app_assoc.
Qed.

Lemma clover_TextRender_WriteTo_calls t w :
  calls_during (clover.TextRender_WriteTo CanonicalMIMEHeaderKey t) w
  = [CallWriteHeader (let s := clover.Status (clover.TextRender_NopRender t) in
                      if decide (s > 0)%Z then s else 200%Z);
     CallWrite (clover.TextRender_Text t)].
Proof.
  apply calls_during_app. unfold clover.TextRender_WriteTo, clover.NopRender_WriteTo.
  simpl. case_decide; simpl; by rewrite <- app_assoc.
Qed.

(** C8: the constructors of package clover and of package render are
    observationally equivalent.  For every input and every response writer,
    [clover.JSON(data).WriteTo] and [render.JSON(data).WriteTo] leave the
    writer in the same state (same headers, same calls, hence same status
    and body) and return the same error, and likewise for [Text]; the
    stored statuses differ (0 and 200), and [NopRender.WriteTo] writes 200
    whenever the stored status is not positive. *)
Theorem clover_render_constructors_equivalent :
  (forall data w,
     clover.JSONRender_WriteTo CanonicalMIMEHeaderKey (clover.JSON json_Marshal data) w
     = render.JSONRender_WriteTo CanonicalMIMEHeaderKey (render.JSON json_Marshal data) w)
  /\ (forall text w,
     clover.TextRender_WriteTo CanonicalMIMEHeaderKey (clover.Text text) w
     = render.TextRender_WriteTo CanonicalMIMEHeaderKey (render.Text text) w)
  /\ (forall data,
     clover.Status (clover.JSONRender_NopRender (clover.JSON json_Marshal data)) = 0%Z
     /\ render.Status (render.JSONRender_NopRender (render.JSON json_Marshal data)) = 200%Z)
  /\ (forall text,
     clover.Status (clover.TextRender_NopRender (clover.Text text)) = 0%Z
     /\ render.Status (render.TextRender_NopRender (render.Text text)) = 200%Z)
  /\ (forall n w, (clover.Status n <= 0)%Z ->
     statuses (calls_during (clover.NopRender_WriteTo CanonicalMIMEHeaderKey n) w)
     = [200%Z])
  /\ (forall n w, (render.Status n <= 0)%Z ->
     statuses (calls_during (render.NopRender_WriteTo CanonicalMIMEHeaderKey n) w)
     = [200%Z]).
Proof.
  repeat split.
  - intros n w Hn. rewrite (calls_during_app _ _ [CallWriteHeader 200]); [done|].
    destruct (clover_NopRender_WriteTo_calls n w) as [-> _].
    case_decide; [lia | done].
  - intros n w Hn. rewrite (calls_during_app _ _ [CallWriteHeader 200]); [done|].
    destruct (render_NopRender_WriteTo_calls n w) as [-> _].
    case_decide; [lia | done].
Qed.

(** C10: for the renders built by [JSON], [Text] and [Redirect] (of package
    render, and [JSON] and [Text] of package clover), the Content-Length
    header stored in the render is the decimal form of the byte length of
    the body that [WriteTo] then writes; that body is the marshaled bytes,
    the bytes of the text, or the redirect body. *)
Theorem Content_Length_is_body_length :
  (forall data w,
     let r := render.JSON json_Marshal data in
     let written := body (calls_during (render.JSONRender_WriteTo CanonicalMIMEHeaderKey r) w) in
     written = (json_Marshal data).1
     /\ render.Headers (render.JSONRender_NopRender r) !! render.HeaderContentLen
        = Some [Itoa (len written)]
     /\ Atoi (Itoa (len written)) = Some (len written))
  /\ (forall text w,
     let r := render.Text text in
     let written := body (calls_during (render.TextRender_WriteTo CanonicalMIMEHeaderKey r) w) in
     written = bytes_of_string text
     /\ render.Headers (render.TextRender_NopRender r) !! render.HeaderContentLen
        = Some [Itoa (len written)]
     /\ Atoi (Itoa (len written)) = Some (len written))
  /\ (forall status location text w,
     let r := render.Redirect status location text in
     let written := body (calls_during (render.RedirectRender_WriteTo CanonicalMIMEHeaderKey r) w) in
     written = bytes_of_string (match text with [] => "redirect" | _ => Join text "" end)
     /\ render.Headers (render.RedirectRender_NopRender r) !! render.HeaderContentLen
        = Some [Itoa (len written)]
     /\ Atoi (Itoa (len written)) = Some (len written))
  /\ (forall data w,
     let r := clover.JSON json_Marshal data in
     let written := body (calls_during (clover.JSONRender_WriteTo CanonicalMIMEHeaderKey r) w) in
     written = (json_Marshal data).1
     /\ clover.Headers (clover.JSONRender_NopRender r) !! clover.HeaderContentLen
        = Some [Itoa (len written)]
     /\ Atoi (Itoa (len written)) = Some (len written))
  /\ (forall text w,
     let r := clover.Text text in
     let written := body (calls_during (clover.TextRender_WriteTo CanonicalMIMEHeaderKey r) w) in
     written = bytes_of_string text
     /\ clover.Headers (clover.TextRender_NopRender r) !! clover.HeaderContentLen
        = Some [Itoa (len written)]
     /\ Atoi (Itoa (len written)) = Some (len written)).
Proof.
  repeat apply conj; intros; subst written.
  - rewrite render_JSONRender_WriteTo_calls, body_WriteHeader_Write. subst r.
    split_and!; [done | simpl; by simplify_map_eq | apply Atoi_Itoa].
  - rewrite render_TextRender_WriteTo_calls, body_WriteHeader_Write. subst r.
    split_and!; [done | simpl; by simplify_map_eq | apply Atoi_Itoa].
  - rewrite render_RedirectRender_WriteTo_calls, body_WriteHeader_Write. subst r.
    split_and!; [| simpl; by simplify_map_eq | apply Atoi_Itoa].
    simpl. destruct text; [done|]. by rewrite decide_True by (unfold len; simpl; lia).
  - rewrite clover_JSONRender_WriteTo_calls, body_WriteHeader_Write. subst r.
    split_and!; [done | simpl; by simplify_map_eq | apply Atoi_Itoa].
  - rewrite clover_TextRender_WriteTo_calls, body_WriteHeader_Write. subst r.
    split_and!; [done | simpl; by simplify_map_eq | apply Atoi_Itoa].
Qed.

End render_facts.

(** ** The handler adapter *)

Section ServeHTTP_facts.
Import http.
Variable Context : Type.
Variable Request : Type.
Variable Request_Context : Request -> Context.
Variable State : Type.

Lemma WriteHeader_Write_calls w status p :
  rw_calls (Write (WriteHeader w status) p).1
  = rw_calls w ++ [CallWriteHeader status; CallWrite p].
Proof. simpl. by rewrite <- app_assoc. Qed.

Lemma app_eq_self {A} (l k : list A) : l = l ++ k -> k = [].
Proof.
  intros H. apply (f_equal length) in H. rewrite length_app in H.
  destruct k; [done | simpl in H; lia].
Qed.

(** C1: [HandlerFunc.ServeHTTP] runs the handler once, on the request's
    context and the request (the state it leaves is the handler's, and a
    handler that counts its invocations counts one more), hands the writer
    to [WriteTo] of the result, and then calls [WriteHeader(500)] and
    [Write] of the error's description if and only if [WriteTo] returned an
    error; with no error the writer is left as [WriteTo] left it. *)
Theorem ServeHTTP_fallback (h : clover.HandlerFunc Context Request State)
  (w : ResponseWriter) (req : Request) (s : State) :
  let hr := h (Request_Context req) req s in
  let wr := render.WriteTo hr.1 w in
  let out := clover.ServeHTTP Context Request Request_Context State h w req s in
  out.2 = hr.2
  /\ (forall k,
        (clover.ServeHTTP Context Request Request_Context (State * nat)
           (clover.counting Context Request State h) w req (s, k)).2 = (hr.2, S k))
  /\ rw_Header out.1 = rw_Header wr.1
  /\ (forall err, wr.2 = Some err ->
        rw_calls out.1
        = rw_calls wr.1 ++ [CallWriteHeader StatusInternalServerError;
                            CallWrite (bytes_of_string (Error err))])
  /\ (wr.2 = None -> out.1 = wr.1)
  /\ (wr.2 <> None <-> rw_calls out.1 <> rw_calls wr.1).
Proof.
  intros hr wr out. subst out. unfold clover.ServeHTTP, clover.counting.
  subst hr wr. simpl.
  destruct (h (Request_Context req) req s) as [r s1]. simpl.
  destruct (render.WriteTo r w) as [w1 [err|]]; simpl.
  - split_and!; try done.
    + intros e [= <-]. by rewrite <- app_assoc.
    + split; [|done]. intros _ H. rewrite <- app_assoc in H.
      symmetry in H. by apply app_eq_self in H.
  - split_and!; try done.
Qed.

End ServeHTTP_facts.

(** ** Request accessors *)

Section request_facts.
Import http.
Variable CanonicalMIMEHeaderKey : string -> string.
Variable url_ParseQuery : string -> clover.Values.
Variable ParseForm : clover.http_Request -> clover.http_Request.

Lemma index_first_value (m : clover.Values) name :
  head (clover.index m name) = clover.first_value m name.
Proof.
  unfold clover.index, clover.first_value. rewrite lookup_total_alt.
  by destruct (m !! name).
Qed.

Lemma pick_first (vs : list string) :
  match vs with [] => ("", false) | v :: _ => (v, true) end
  = match head vs with None => ("", false) | Some v => (v, true) end.
Proof. by destruct vs. Qed.

Lemma first_value_absent (m : clover.Values) name :
  m !! name = None -> clover.first_value m name = None.
Proof. unfold clover.first_value. by intros ->. Qed.

Lemma first_value_present (m : clover.Values) name v vs :
  m !! name = Some (v :: vs) -> clover.first_value m name = Some v.
Proof. unfold clover.first_value. by intros ->. Qed.

Lemma request_Header_first req name :
  clover.request_Header CanonicalMIMEHeaderKey req name
  = match clover.first_value (clover.Request_Header (clover.raw req))
            (CanonicalMIMEHeaderKey name) with
    | None => ("", false)
    | Some v => (v, true)
    end.
Proof.
  unfold clover.request_Header, Header_Values.
  rewrite pick_first. by rewrite <- index_first_value.
Qed.

Lemma Query_first req name :
  (clover.Query url_ParseQuery req name).1
  = match clover.first_value
            (default (clover.URL_Query url_ParseQuery (clover.Request_URL (clover.raw req)))
               (clover.urlQuery req)) name with
    | None => ("", false)
    | Some v => (v, true)
    end.
Proof.
  unfold clover.Query. rewrite <- index_first_value.
  destruct req as [rw [q|]]; cbn -[clover.index];
    by destruct (clover.index _ name).
Qed.

Lemma PostForm_first req name :
  (clover.PostForm ParseForm req name).1
  = match clover.first_value
            (default ∅ (clover.Request_PostForm (ParseForm (clover.raw req)))) name with
    | None => ("", false)
    | Some v => (v, true)
    end.
Proof.
  unfold clover.PostForm. rewrite <- index_first_value. cbn -[clover.index].
  by destruct (clover.index _ name).
Qed.

(** C9: the accessors of the request wrapper.  [Header], [Query] and
    [PostForm] return ("", false) when the named key is absent (and also
    when it is stored with no value) and the first value with true when
    there is one; the [...Default] variants return the default when there
    is no first value or it is the empty string, and the first value
    otherwise.  The header name is looked up in canonical form, the query
    is the cached one or else the parsed URL query, the form is the one
    [ParseForm] leaves. *)
Theorem request_accessors (req : clover.request) (name defaultValue : string) :
  let hdr := clover.Request_Header (clover.raw req) in
  let key := CanonicalMIMEHeaderKey name in
  let qry := default (clover.URL_Query url_ParseQuery (clover.Request_URL (clover.raw req)))
               (clover.urlQuery req) in
  let frm := default ∅ (clover.Request_PostForm (ParseForm (clover.raw req))) in
  let Header := clover.request_Header CanonicalMIMEHeaderKey req name in
  let Query := (clover.Query url_ParseQuery req name).1 in
  let PostForm := (clover.PostForm ParseForm req name).1 in
  let HeaderDefault := clover.HeaderDefault CanonicalMIMEHeaderKey req name defaultValue in
  let QueryDefault := (clover.QueryDefault url_ParseQuery req name defaultValue).1 in
  let PostFormDefault := (clover.PostFormDefault ParseForm req name defaultValue).1 in
  ((hdr !! key = None \/ hdr !! key = Some []) -> Header = ("", false))
  /\ ((qry !! name = None \/ qry !! name = Some []) -> Query = ("", false))
  /\ ((frm !! name = None \/ frm !! name = Some []) -> PostForm = ("", false))
  /\ (forall v vs, hdr !! key = Some (v :: vs) -> Header = (v, true))
  /\ (forall v vs, qry !! name = Some (v :: vs) -> Query = (v, true))
  /\ (forall v vs, frm !! name = Some (v :: vs) -> PostForm = (v, true))
  /\ ((clover.first_value hdr key = None \/ clover.first_value hdr key = Some "")
      -> HeaderDefault = defaultValue)
  /\ ((clover.first_value qry name = None \/ clover.first_value qry name = Some "")
      -> QueryDefault = defaultValue)
  /\ ((clover.first_value frm name = None \/ clover.first_value frm name = Some "")
      -> PostFormDefault = defaultValue)
  /\ (forall v, clover.first_value hdr key = Some v -> v <> "" -> HeaderDefault = v)
  /\ (forall v, clover.first_value qry name = Some v -> v <> "" -> QueryDefault = v)
  /\ (forall v, clover.first_value frm name = Some v -> v <> "" -> PostFormDefault = v).
Proof.
  intros hdr key qry frm Header Query PostForm HeaderDefault QueryDefault PostFormDefault.
  assert (HH := request_Header_first req name).
  assert (HQ := Query_first req name).
  assert (HP := PostForm_first req name).
  fold hdr key Header in HH. fold qry Query in HQ. fold frm PostForm in HP.
  assert (HQD : QueryDefault = if decide (Query.1 ≠ "") then Query.1 else defaultValue).
  { subst QueryDefault Query. unfold clover.QueryDefault.
    destruct (clover.Query _ _ _) as [[v b] r]. simpl.
    by destruct (decide (v ≠ "")). }
  assert (HPD : PostFormDefault = if decide (PostForm.1 ≠ "") then PostForm.1 else defaultValue).
  { subst PostFormDefault PostForm. unfold clover.PostFormDefault.
    destruct (clover.PostForm _ _ _) as [[v b] r]. simpl.
    by destruct (decide (v ≠ "")). }
  assert (HHD : HeaderDefault = if decide (Header.1 ≠ "") then Header.1 else defaultValue).
  { subst HeaderDefault Header. unfold clover.HeaderDefault.
    by destruct (clover.request_Header _ _ _) as [v b]. }
  clearbody Header Query PostForm HeaderDefault QueryDefault PostFormDefault.
  subst. unfold clover.first_value.
  split_and!.
  - by intros [H | H]; rewrite H.
  - by intros [H | H]; rewrite H.
  - by intros [H | H]; rewrite H.
  - intros v vs H. by rewrite H.
  - intros v vs H. by rewrite H.
  - intros v vs H. by rewrite H.
  - intros [H | H]; rewrite H; simpl; first [done | by case_decide].
  - intros [H | H]; rewrite H; simpl; first [done | by case_decide].
  - intros [H | H]; rewrite H; simpl; first [done | by case_decide].
  - intros v H Hv. rewrite H. simpl. first [done | by case_decide].
  - intros v H Hv. rewrite H. simpl. first [done | by case_decide].
  - intros v H Hv. rewrite H. simpl. first [done | by case_decide].
Qed.

End request_facts.

(** ** The matcher *)

Section mux_facts.
Import mux.
Variable Handler : Type.
Variable regexp_Compile : string -> bool.
Variable regexp_MatchString : string -> string -> bool.

Local Abbreviation Node := (mux.Node Handler).
Local Abbreviation Endpoint := (mux.Endpoint Handler).
Local Abbreviation Outcome := (mux.Outcome Handler).
Local Abbreviation Candidate := (mux.Candidate Handler).
Local Abbreviation candidates := (mux.candidates Handler regexp_MatchString).
Local Abbreviation match_node := (mux.match_node Handler regexp_MatchString).
Local Abbreviation try_candidate := (mux.try_candidate Handler regexp_MatchString).
Local Abbreviation match_path := (mux.match_path Handler regexp_MatchString).
Local Abbreviation reaches := (mux.reaches Handler regexp_MatchString).
Local Abbreviation via := (mux.via Handler regexp_MatchString).
Local Abbreviation resolves := (mux.resolves Handler).
Local Abbreviation terminal := (mux.terminal Handler).
Local Abbreviation first_outcome := (mux.first_outcome Handler).
Local Abbreviation orelse := (mux.orelse Handler).
Local Abbreviation insert := (mux.insert Handler).
Local Abbreviation compile := (mux.compile regexp_Compile).

Lemma match_node_cons method s rest (n : Node) binds :
  match_node method (s :: rest) n binds
  = first_outcome (map (try_candidate method rest) (candidates n s rest binds)).
Proof. reflexivity. Qed.

Lemma resolves_ext method (R R' : gmap string Endpoint -> Prop) (o : Outcome) :
  (forall tbl, R tbl <-> R' tbl) -> resolves method R o -> resolves method R' o.
Proof.
  intros HR. destruct o as [ep ps|ms|]; simpl.
  - intros (tbl & H & ?). exists tbl. split; [by apply HR | done].
  - intros [(tbl & H & ?) Hall]. split.
    + exists tbl. split; [by apply HR | done].
    + intros tbl' H'. apply Hall. by apply HR.
  - intros Hall tbl H. apply Hall. by apply HR.
Qed.

Lemma resolves_terminal method (tbl : gmap string Endpoint) binds :
  resolves method (eq tbl) (terminal method tbl binds).
Proof.
  unfold mux.terminal. destruct (tbl !! method) as [ep|] eqn:Hm; simpl.
  - by exists tbl.
  - case_decide as He; simpl.
    + by intros ? <-.
    + split; [by exists tbl | by intros ? <-].
Qed.

Lemma resolves_orelse method (R1 R2 : gmap string Endpoint -> Prop) (a b : Outcome) :
  resolves method R1 a -> resolves method R2 b ->
  resolves method (fun tbl => R1 tbl \/ R2 tbl) (orelse a b).
Proof.
  destruct a as [ep ps|ms|], b as [ep' ps'|ms'|]; simpl.
  - intros (tbl & ? & ?) _. exists tbl. auto.
  - intros (tbl & ? & ?) _. exists tbl. auto.
  - intros (tbl & ? & ?) _. exists tbl. auto.
  - intros _ (tbl & ? & ?). exists tbl. auto.
  - intros [(tbl & ? & ?) H1] [_ H2]. split; [exists tbl; auto|].
    intros t [?|?]; auto.
  - intros [(tbl & ? & ?) H1] H2. split; [exists tbl; auto|].
    intros t [?|Ht]; [auto|]. rewrite (H2 _ Ht). apply lookup_empty.
  - intros _ (tbl & ? & ?). exists tbl. auto.
  - intros H1 [(tbl & ? & ?) H2]. split; [exists tbl; auto|].
    intros t [Ht|?]; [|auto]. rewrite (H1 _ Ht). apply lookup_empty.
  - intros H1 H2 t [?|?]; auto.
Qed.

Lemma resolves_first_outcome method rest (cs : list Candidate) :
  (forall c, c ∈ cs -> resolves method (via rest c) (try_candidate method rest c)) ->
  resolves method (fun tbl => exists c, c ∈ cs /\ via rest c tbl)
    (first_outcome (map (try_candidate method rest) cs)).
Proof.
  induction cs as [|c cs IH]; intros Hcs; simpl.
  - intros tbl (c & Hc & _). by apply elem_of_nil in Hc.
  - eapply resolves_ext; [| apply resolves_orelse;
      [apply Hcs; left | apply IH; intros; apply Hcs; by right]].
    intros tbl. split.
    + intros [H | (c' & ? & ?)]; [exists c | exists c']; split; auto; by constructor.
    + intros (c' & Hc' & H). apply elem_of_cons in Hc' as [-> | Hc']; eauto.
Qed.

Lemma elem_of_regex_candidates s binds (rs : list (string * string * Node)) c :
  c ∈ mux.regex_candidates Handler regexp_MatchString s binds rs <->
  exists name expr child,
    ((name, expr), child) ∈ rs /\ regexp_MatchString expr s = true
    /\ c = mux.descend Handler KRegexParam child (bind_param name s binds).
Proof.
  unfold mux.regex_candidates. rewrite list_elem_of_omap. split.
  - intros ([[name expr] child] & Hin & H).
    destruct (regexp_MatchString expr s) eqn:Hm; [|done].
    injection H as <-. by exists name, expr, child.
  - intros (name & expr & child & Hin & Hm & ->).
    exists ((name, expr), child). by rewrite Hm.
Qed.

(** A path reaches a table through one of the candidates at the node. *)
Lemma reaches_candidates (n : Node) s rest binds tbl :
  reaches n (s :: rest) tbl <->
  exists c, c ∈ candidates n s rest binds /\ via rest c tbl.
Proof.
  unfold mux.candidates. split.
  - inversion 1; subst.
    + exists (mux.descend Handler KStatic c binds). split; [|done].
      rewrite H3. by left.
    + exists (mux.descend Handler KRegexParam c (bind_param name s binds)).
      split; [|done]. apply elem_of_app. right. apply elem_of_app. left.
      apply elem_of_regex_candidates. by exists name, expr, c.
    + exists (mux.descend Handler KParam c (bind_param name s binds)).
      split; [|done]. do 2 (apply elem_of_app; right). apply elem_of_app. left.
      rewrite H3. by left.
    + exists (mux.finish Handler tbl (bind_param "*" (Join (s :: rest) "/") binds)).
      split; [|done]. do 3 (apply elem_of_app; right). rewrite H4. by left.
  - intros (c & Hc & Hv).
    apply elem_of_app in Hc as [Hc | Hc]; [| apply elem_of_app in Hc as [Hc | Hc];
      [| apply elem_of_app in Hc as [Hc | Hc]]].
    + destruct (assoc s (statics Handler n)) as [child|] eqn:Hs;
        [| by apply elem_of_nil in Hc].
      apply list_elem_of_singleton in Hc as ->. by eapply reaches_static.
    + apply elem_of_regex_candidates in Hc as (name & expr & child & ? & ? & ->).
      by eapply reaches_regex.
    + destruct (paramChild Handler n) as [[name child]|] eqn:Hp;
        [| by apply elem_of_nil in Hc].
      apply list_elem_of_singleton in Hc as ->. by eapply reaches_param.
    + destruct (wildChild Handler n) as [t|] eqn:Hw; [| by apply elem_of_nil in Hc].
      apply list_elem_of_singleton in Hc as ->. simpl in Hv. subst.
      by eapply reaches_wild.
Qed.

(** The outcome of the matcher at a node is right for the tables that the
    remaining segments reach from it. *)
Lemma match_node_resolves method segs :
  forall (n : Node) binds,
    resolves method (reaches n segs) (match_node method segs n binds).
Proof.
  induction segs as [|s rest IH]; intros n binds.
  - simpl. eapply resolves_ext; [| apply resolves_terminal].
    intros tbl. split; [intros <-; constructor | by inversion 1].
  - rewrite match_node_cons.
    eapply resolves_ext; [| apply resolves_first_outcome].
    + intros tbl. symmetry. apply reaches_candidates.
    + intros [k child b | t b] _; simpl; [apply IH | apply resolves_terminal].
Qed.

Lemma outcome_classes (o : Outcome) :
  Nat.b2n (is_matched Handler o) + Nat.b2n (is_not_allowed Handler o)
  + Nat.b2n (is_not_found Handler o) = 1.
Proof. by destruct o. Qed.

(** C2: for every trie, method and path string, matching is a total
    function whose result is exactly one of: a matched endpoint, which is
    the endpoint for the method in an endpoint table that the path reaches;
    method-not-allowed, which carries the set of methods of a reached table
    that has endpoints, no reached table having one for the method; or
    not-found, when the path reaches no table with an endpoint (in
    particular when it does not begin with a slash). *)
Theorem matcher_three_outcomes (root : Node) (method path : string) :
  let o := match_path root method path in
  let reached tbl :=
    exists segs, split_path path = Some segs /\ reaches root segs tbl in
  Nat.b2n (is_matched Handler o) + Nat.b2n (is_not_allowed Handler o)
    + Nat.b2n (is_not_found Handler o) = 1
  /\ (forall ep params, o = Matched Handler ep params ->
        exists tbl, reached tbl /\ tbl !! method = Some ep)
  /\ (forall allowed, o = MethodNotAllowed Handler allowed ->
        (exists tbl, reached tbl /\ dom tbl = allowed /\ tbl <> ∅)
        /\ (forall tbl, reached tbl -> tbl !! method = None))
  /\ (o = NotFound Handler -> forall tbl, reached tbl -> tbl = ∅).
Proof.
  intros o reached.
  assert (H : resolves method reached o).
  { subst o reached. unfold mux.match_path.
    destruct (split_path path) as [segs|].
    - eapply resolves_ext; [| apply match_node_resolves].
      intros tbl. split; [by exists segs | by intros (? & [= <-] & ?)].
    - by intros tbl (? & ? & _). }
  split; [apply outcome_classes|].
  split_and!.
  - intros ep ps Ho. by rewrite Ho in H.
  - intros ms Ho. by rewrite Ho in H.
  - intros Ho. by rewrite Ho in H.
Qed.

(** *** Precedence *)







(** *** Registration *)














Lemma compile_users_id : compile "/users/{id}" = Ok [static "users"; param "id"].
Proof. reflexivity. Qed.


(** *** Wildcard capture *)

Lemma split_slash_nonempty s : split_slash s <> [].
Proof. destruct s as [|c s]; simpl; [done|]. by repeat case_match. Qed.

(** Joining the tokens with '/' gives the string back. *)
Lemma Join_split_slash s : Join (split_slash s) "/" = s.
Proof.
  induction s as [|c s IH]; [done|]. cbn [split_slash].
  pose proof (split_slash_nonempty s) as Hne.
  destruct (split_slash s) as [|t ts]; [done|]. clear Hne.
  destruct (Ascii.eqb c "/") eqn:Hc.
  - apply Ascii.eqb_eq in Hc as ->.
    change (String "/" (Join (t :: ts) "/") = String "/" s). by rewrite IH.
  - destruct ts as [|t' ts].
    + change (String c (Join [t] "/") = String c s). by rewrite IH.
    + change (String c (Join (t :: t' :: ts) "/") = String c s). by rewrite IH.
Qed.

Lemma compile_files : compile "/files/*" = Ok [static "files"; wildcard].
Proof. reflexivity. Qed.

Lemma attach_empty method (ep : Endpoint) :
  mux.attach Handler method ep ∅ = Ok {[method := ep]}.
Proof. unfold mux.attach. by rewrite lookup_empty. Qed.

Lemma terminal_singleton method (ep : Endpoint) binds :
  terminal method {[method := ep]} binds = Matched Handler ep binds.
Proof. unfold mux.terminal. by rewrite lookup_singleton_eq. Qed.

Lemma orelse_NotFound_r (o : Outcome) : orelse o (NotFound Handler) = o.
Proof. by destruct o. Qed.

(** One step of the matcher at a node with a single child. *)
Lemma match_node_static_only method s rest eps (c : Node) binds :
  match_node method (s :: rest) (mkNode Handler eps [(s, c)] [] None None) binds
  = match_node method rest c binds.
Proof.
  rewrite match_node_cons. unfold mux.candidates. cbn [statics assoc].
  rewrite decide_True by done. cbn. apply orelse_NotFound_r.
Qed.

Lemma match_node_param_only method s rest eps name (c : Node) binds :
  match_node method (s :: rest) (mkNode Handler eps [] [] (Some (name, c)) None) binds
  = match_node method rest c (bind_param name s binds).
Proof. rewrite match_node_cons. cbn -[bind_param]. apply orelse_NotFound_r. Qed.

Lemma match_node_wild_only method s rest eps tbl ep binds :
  tbl !! method = Some ep ->
  match_node method (s :: rest) (mkNode Handler eps [] [] None (Some tbl)) binds
  = Matched Handler ep (binds ++ [("*", Join (s :: rest) "/")]).
Proof.
  intros Hm. rewrite match_node_cons.
  change (candidates (mkNode Handler eps [] [] None (Some tbl)) s rest binds)
    with [mux.finish Handler tbl (binds ++ [("*", Join (s :: rest) "/")])].
  cbn [map mux.first_outcome foldr mux.try_candidate].
  unfold mux.terminal. by rewrite Hm.
Qed.

Lemma split_slash_files remainder :
  split_slash ("files/" +:+ remainder) = "files" :: split_slash remainder.
Proof.
  change ("files/" +:+ remainder)
    with (String "f" (String "i" (String "l" (String "e" (String "s"
           (String "/" remainder)))))).
  cbn. pose proof (split_slash_nonempty remainder).
  by destruct (split_slash remainder).
Qed.

(** C4: a trailing wildcard takes the whole remainder of the path, slashes
    included.  On a router with /files/* registered, every path made of
    /files/ and a remainder matches that endpoint and binds the wildcard to
    the remainder; /files/a/b/c binds it to a/b/c. *)
Theorem wildcard_takes_remainder (method : string) (h : Handler) :
  exists mx,
    mux.Method Handler regexp_Compile (NewRouter Handler) method "/files/*" h = Ok mx
    /\ (forall remainder,
          match_path (tree Handler mx) method ("/files/" +:+ remainder)
          = Matched Handler (mkEndpoint Handler h "/files/*") [("*", remainder)])
    /\ match_path (tree Handler mx) method "/files/a/b/c"
       = Matched Handler (mkEndpoint Handler h "/files/*") [("*", "a/b/c")]
    /\ URLParam [("*", "a/b/c")] "*" = Some "a/b/c".
Proof.
  eexists. split.
  { unfold mux.Method. rewrite compile_files.
    cbn -[mux.attach]. rewrite attach_empty. cbn -[mux.attach]. reflexivity. }
  cbn [tree].
  assert (Hall : forall remainder,
    match_path
      (mkNode Handler ∅
         [("files", mkNode Handler ∅ [] [] None
                      (Some {[method := mkEndpoint Handler h "/files/*"]}))]
         [] None None)
      method ("/files/" +:+ remainder)
    = Matched Handler (mkEndpoint Handler h "/files/*") [("*", remainder)]).
  { intros remainder. unfold mux.match_path.
    change (split_path ("/files/" +:+ remainder))
      with (Some (split_slash ("files/" +:+ remainder))).
    rewrite split_slash_files, match_node_static_only.
    pose proof (Join_split_slash remainder) as HJ.
    pose proof (split_slash_nonempty remainder).
    destruct (split_slash remainder) as [|s rest]; [done|].
    rewrite (match_node_wild_only _ _ _ _ _ (mkEndpoint Handler h "/files/*"))
      by apply lookup_singleton_eq.
    by rewrite HJ. }
  split_and!; [exact Hall | exact (Hall "a/b/c") | reflexivity].
Qed.

(** *** Extension stripping *)




Lemma append_nil_r s : s +:+ "" = s.
Proof.
  induction s as [|c s IH]; [done|].
  change (String c (s +:+ "") = String c s). by rewrite IH.
Qed.









Lemma compile_articles :
  compile "/articles/{articleID}" = Ok [static "articles"; param "articleID"].
Proof. reflexivity. Qed.

(** C6: on a router that uses the URLFormat middleware and has
    /articles/{articleID} registered, a request for /articles/1.json (and
    one for /articles/1.xml) matches that endpoint, and the lookup of
    articleID gives 1; the router alone would bind it to 1.json. *)
Theorem URLFormat_articles (method : string) (h : Handler) :
  exists mx,
    mux.Method Handler regexp_Compile (Use Handler (NewRouter Handler) URLFormat)
      method "/articles/{articleID}" h = Ok mx
    /\ (exists ps,
          route Handler regexp_MatchString mx method "/articles/1.json"
          = Matched Handler (mkEndpoint Handler h "/articles/{articleID}") ps
          /\ URLParam ps "articleID" = Some "1")
    /\ (exists ps,
          route Handler regexp_MatchString mx method "/articles/1.xml"
          = Matched Handler (mkEndpoint Handler h "/articles/{articleID}") ps
          /\ URLParam ps "articleID" = Some "1")
    /\ match_path (tree Handler mx) method "/articles/1.json"
       = Matched Handler (mkEndpoint Handler h "/articles/{articleID}")
           [("articleID", "1.json")].
Proof.
  eexists. split.
  { unfold mux.Method. rewrite compile_articles.
    cbn -[mux.attach]. rewrite attach_empty. cbn -[mux.attach]. reflexivity. }
  unfold mux.route. cbn [tree middlewares mux.chain foldr].
  unfold URLFormat.
  assert (Hjson : strip_format "/articles/1.json" = "/articles/1") by reflexivity.
  assert (Hxml : strip_format "/articles/1.xml" = "/articles/1") by reflexivity.
  rewrite Hjson, Hxml.
  set (root := mkNode Handler _ _ _ _ _).
  change (match_path root method "/articles/1")
    with (match_node method ["articles"; "1"] root []).
  change (match_path root method "/articles/1.json")
    with (match_node method ["articles"; "1.json"] root []).
  subst root. rewrite !match_node_static_only, !match_node_param_only.
  cbn [mux.match_node endpoints]. rewrite !terminal_singleton.
  split_and!; [by eexists | by eexists | done].
Qed.

End mux_facts.

(** ** Instances *)

(** A render whose [WriteTo] fails makes [ServeHTTP] write the fallback. *)
Lemma ServeHTTP_fallback_witness :
  let failing := render.mkRender (fun w => (w, Some (mkError "boom"))) in
  let w := http.mkResponseWriter ∅ [] (fun _ _ _ => None) in
  render.WriteTo failing w = (w, Some (mkError "boom"))
  /\ http.rw_calls
       (clover.ServeHTTP unit unit (fun _ => tt) unit
          (fun _ _ s => (failing, s)) w tt tt).1
     = [http.CallWriteHeader 500; http.CallWrite (bytes_of_string "boom")].
Proof.
  intros failing w. split; [reflexivity|].
  exact (proj1 (proj2 (proj2 (proj2
           (ServeHTTP_fallback unit unit (fun _ => tt) unit
              (fun _ _ s => (failing, s)) w tt tt))))
         (mkError "boom") eq_refl).
Defined.

(** Only GET is registered at /x: a POST to /x is a method mismatch that
    carries GET. *)
Lemma matcher_three_outcomes_witness :
  let root :=
    mux.mkNode nat ∅
      [("x", mux.mkNode nat {["GET" := mux.mkEndpoint nat 7 "/x"]} [] [] None None)]
      [] None None in
  mux.match_path nat (fun _ _ => false) root "POST" "/x"
  = mux.MethodNotAllowed nat {["GET"]}
  /\ exists tbl : gmap string (mux.Endpoint nat),
       (exists segs, mux.split_path "/x" = Some segs
                     /\ mux.reaches nat (fun _ _ => false) root segs tbl)
       /\ dom tbl = {["GET"]} /\ tbl <> ∅.
Proof.
  intros root.
  assert (H : mux.match_path nat (fun _ _ => false) root "POST" "/x"
              = mux.MethodNotAllowed nat {["GET"]}) by (vm_compute; reflexivity).
  split; [exact H|].
  exact (proj1 (proj1 (proj2 (proj2
           (matcher_three_outcomes nat (fun _ _ => false) root "POST" "/x")))
         {["GET"]} H)).
Defined.




(** A render with status 0 writes 200. *)
Lemma clover_render_constructors_equivalent_witness :
  let n := clover.mkNopRender 0 ∅ in
  let w := http.mkResponseWriter ∅ [] (fun _ _ _ => None) in
  (clover.Status n <= 0)%Z
  /\ http.statuses
       (http.calls_during (clover.NopRender_WriteTo (fun k => k) n) w)
     = [200%Z].
Proof.
  intros n w. split; [simpl; lia|].
  apply (proj1 (proj2 (proj2 (proj2 (proj2
           (clover_render_constructors_equivalent (fun k => k) string
              (fun s => (bytes_of_string s, None)))))))).
  simpl. lia.
Defined.

(** A request with one header, no query cache and a parsed form. *)
Lemma request_accessors_witness :
  let req :=
    clover.mkrequest
      (clover.mkRequest (clover.mkURL "/" "") "/" "127.0.0.1:1"
         {["X-Token" := ["abc"; "def"]]} (Some ∅))
      None in
  clover.Request_Header (clover.raw req) !! "X-Token" = Some ["abc"; "def"]
  /\ clover.request_Header (fun k => k) req "X-Token" = ("abc", true).
Proof.
  intros req.
  assert (H : clover.Request_Header (clover.raw req) !! "X-Token"
              = Some ["abc"; "def"]) by (vm_compute; reflexivity).
  split; [exact H|].
  exact (proj1 (proj2 (proj2 (proj2
           (request_accessors (fun k => k) (fun _ => ∅) (fun r => r) req
              "X-Token" ""))))
         "abc" ["def"] H).
Defined.

(** ** Examples *)

Example Itoa_examples : Itoa 0 = "0" /\ Itoa 120 = "120" /\ Itoa (-7) = "-7".
Proof. by vm_compute. Qed.

Example Redirect_default_body :
  render.RedirectRender_Text (render.Redirect 302 "/login" [])
  = bytes_of_string "redirect"
  /\ render.Headers (render.RedirectRender_NopRender (render.Redirect 302 "/login" []))
     !! "Content-Length" = Some ["8"].
Proof. by vm_compute. Qed.

Example compile_examples :
  let compile := mux.compile (fun _ => true) in
  compile "/" = mux.Ok []
  /\ compile "/date/{yyyy:\d\d\d\d}/{mm}"
     = mux.Ok [mux.static "date"; mux.regexParam "yyyy" "\d\d\d\d"; mux.param "mm"]
  /\ compile "/page/{:\d+}" = mux.Ok [mux.static "page"; mux.regexParam "" "\d+"]
  /\ compile "page" = mux.Err mux.ErrNoLeadingSlash
  /\ compile "/a//b" = mux.Err mux.ErrEmptySegment
  /\ compile "/a/*/b" = mux.Err mux.ErrWildcardNotLast
  /\ compile "/a/{id" = mux.Err mux.ErrUnterminatedBrace
  /\ compile "/a/{id:x{2}}" = mux.Err mux.ErrBadRegex.
Proof. by vm_compute. Qed.

(** Paths that match nothing resolve to not-found. *)
Example odd_paths_not_found :
  let root :=
    mux.mkNode nat ∅
      [("x", mux.mkNode nat {["GET" := mux.mkEndpoint nat 7 "/x"]} [] [] None None)]
      [] None None in
  Forall (fun path => mux.match_path nat (fun _ _ => false) root "GET" path
                      = mux.NotFound nat)
    [""; "x"; "//"; "/x/"; "/x//"; "/x%2F"; "/%2Fx"; "/x/../x"; "/y"].
Proof. intros root. repeat constructor. Qed.

(** A later binding of a name shadows an earlier one. *)
Example URLParam_shadowing :
  mux.URLParam [("id", "1"); ("name", "n"); ("id", "2")] "id" = Some "2".
Proof. reflexivity. Qed.

(** Of two regexParam children that both match, the first registered wins;
    a duplicate registration and a second parameter name are refused. *)
Example registration_examples :
  let Method := mux.Method nat (fun _ => true) in
  let any := fun (_ _ : string) => true in
  (exists mx1 mx2,
     Method (mux.NewRouter nat) "GET" "/n/{a:\d+}" 1 = mux.Ok mx1
     /\ Method mx1 "GET" "/n/{b:\w+}" 2 = mux.Ok mx2
     /\ mux.match_path nat any (mux.tree nat mx2) "GET" "/n/42"
        = mux.Matched nat (mux.mkEndpoint nat 1 "/n/{a:\d+}") [("a", "42")])
  /\ (exists mx1,
        Method (mux.NewRouter nat) "GET" "/x" 1 = mux.Ok mx1
        /\ Method mx1 "GET" "/x" 2 = mux.Err mux.ErrDuplicateEndpoint)
  /\ (exists mx1,
        Method (mux.NewRouter nat) "GET" "/u/{id}" 1 = mux.Ok mx1
        /\ Method mx1 "GET" "/u/{name}/x" 2 = mux.Err mux.ErrConflict).
Proof.
  intros Method any. split_and!.
  - eexists _, _. split_and!; vm_compute; reflexivity.
  - eexists. split; vm_compute; reflexivity.
  - eexists. split; vm_compute; reflexivity.
Qed.

(** * Further properties of the code *)

(** ** Copying headers *)

Section copyHeaders_facts.
Import http.
Variable CanonicalMIMEHeaderKey : string -> string.

Local Abbreviation canon := CanonicalMIMEHeaderKey.

Lemma copyHeaders_add_entries dst (src : Header) :
  render.copyHeaders canon dst src = add_entries canon (map_to_list src) dst.
Proof.
  unfold render.copyHeaders, add_entries. rewrite map_fold_foldr.
  apply foldr_ext; [by intros [??] ? | done | done].
Qed.

(** Entries whose keys have other canonical forms leave a key alone. *)
Lemma lookup_add_entries_other entries dst k :
  (forall key vs, (key, vs) ∈ entries -> vs <> [] -> canon key <> k) ->
  add_entries canon entries dst !! k = dst !! k.
Proof.
  induction entries as [|[key vs] entries IH]; intros H; [done|].
  simpl. rewrite lookup_add_values. simpl.
  rewrite IH by (intros; eapply H; [by right | done]).
  case_decide as Hk; [|done]. destruct vs as [|v vs]; [done|].
  by destruct (H key (v :: vs) ltac:(by left) ltac:(done)).
Qed.

Lemma lookup_add_entries_key entries dst key vs :
  NoDup (canon <$> entries.*1) -> (key, vs) ∈ entries -> vs <> [] ->
  add_entries canon entries dst !! canon key = Some (dst !!! canon key ++ vs).
Proof.
  induction entries as [|[key' vs'] entries IH]; intros Hnd Hin Hvs.
  - by apply elem_of_nil in Hin.
  - simpl in Hnd. apply NoDup_cons in Hnd as [Hnotin Hnd].
    simpl. rewrite lookup_add_values. simpl.
    apply elem_of_cons in Hin as [[= <- <-] | Hin].
    + rewrite decide_True by done. rewrite lookup_total_alt.
      rewrite lookup_add_entries_other.
      * rewrite <- lookup_total_alt. by destruct vs.
      * intros key2 vs2 Hin2 _ Heq. apply Hnotin. rewrite <- Heq.
        apply list_elem_of_fmap. exists key2. split; [done|].
        apply list_elem_of_fmap. by exists (key2, vs2).
    + rewrite decide_False.
      * by apply IH.
      * intros Heq. apply Hnotin. rewrite Heq.
        apply list_elem_of_fmap. exists key. split; [done|].
        apply list_elem_of_fmap. by exists (key, vs).
Qed.

(** X1: [copyHeaders] (of both packages) gives the same header map whatever
    the order in which Go ranges over the source map, provided the keys of
    the source have pairwise distinct canonical forms. *)
Theorem copyHeaders_order_independent dst (src : Header)
  (entries : list (string * list string)) :
  entries ≡ₚ map_to_list src ->
  (forall k1 k2, is_Some (src !! k1) -> is_Some (src !! k2) ->
     canon k1 = canon k2 -> k1 = k2) ->
  render.copyHeaders canon dst src = add_entries canon entries dst
  /\ clover.copyHeaders canon dst src = add_entries canon entries dst.
Proof.
  intros Hperm Hinj.
  assert (H := copyHeaders_any_order canon dst src entries Hperm Hinj).
  split; [by rewrite H | by rewrite copyHeaders_same, H].
Qed.

(** X2: [copyHeaders] adds and never replaces.  When the keys of the source
    have pairwise distinct canonical forms, the values of each source key
    are appended, in order, after the values that the destination already
    holds under the canonical form of the key; every other key of the
    destination keeps its values. *)
Theorem copyHeaders_appends dst (src : Header) :
  (forall k1 k2, is_Some (src !! k1) -> is_Some (src !! k2) ->
     canon k1 = canon k2 -> k1 = k2) ->
  (forall key vs, src !! key = Some vs -> vs <> [] ->
     render.copyHeaders canon dst src !! canon key
     = Some (dst !!! canon key ++ vs))
  /\ (forall k, (forall key vs, src !! key = Some vs -> vs <> [] -> canon key <> k) ->
        render.copyHeaders canon dst src !! k = dst !! k).
Proof.
  intros Hinj. rewrite copyHeaders_add_entries. split.
  - intros key vs Hkey Hvs. apply lookup_add_entries_key; [| | done].
    + apply NoDup_fmap_2_strong; [| apply NoDup_fst_map_to_list].
      intros k1 k2 H1 H2. apply Hinj.
      * apply list_elem_of_fmap in H1 as ([? v1] & -> & H1).
        exists v1. by apply elem_of_map_to_list.
      * apply list_elem_of_fmap in H2 as ([? v2] & -> & H2).
        exists v2. by apply elem_of_map_to_list.
    + by apply elem_of_map_to_list.
  - intros k Hk. apply lookup_add_entries_other.
    intros key vs Hin. apply Hk. by apply elem_of_map_to_list.
Qed.

End copyHeaders_facts.

(** ** Renders, written *)

Section written_facts.
Import http.
Variable CanonicalMIMEHeaderKey : string -> string.
Variable Value : Type.
Variable json_Marshal : Value -> bytes * option error.
Variable Context : Type.
Variable Request : Type.
Variable Request_Context : Request -> Context.
Variable State : Type.

Local Abbreviation canon := CanonicalMIMEHeaderKey.
Local Abbreviation ServeHTTP := (clover.ServeHTTP Context Request Request_Context State).

Lemma bytes_of_string_app s1 s2 :
  bytes_of_string (s1 +:+ s2) = bytes_of_string s1 ++ bytes_of_string s2.
Proof.
  unfold bytes_of_string, list_byte_of_string.
  induction s1 as [|c s1 IH]; [done|]. cbn. by rewrite <- IH.
Qed.

Lemma len_bytes_of_string s : len (bytes_of_string s) = Z.of_nat (String.length s).
Proof.
  unfold len, bytes_of_string, list_byte_of_string. f_equal.
  induction s as [|c s IH]; [done|]. cbn. by rewrite <- IH.
Qed.

(** Joining with the empty separator is concatenation. *)
Lemma bytes_of_Join_nosep (elems : list string) :
  bytes_of_string (Join elems "") = mjoin (bytes_of_string <$> elems).
Proof.
  induction elems as [|e [|e' elems] IH]; [done | |].
  - simpl. by rewrite app_nil_r.
  - change (Join (e :: e' :: elems) "") with (e +:+ "" +:+ Join (e' :: elems) "").
    rewrite !bytes_of_string_app, IH. done.
Qed.

(** The header map of a render with two keys, copied onto a writer. *)
Lemma copyHeaders_two_keys dst k1 v1 k2 v2 :
  canon k1 <> canon k2 ->
  let h := render.copyHeaders canon dst (<[k1 := [v1]]> (<[k2 := [v2]]> ∅)) in
  h !! canon k1 = Some (dst !!! canon k1 ++ [v1])
  /\ h !! canon k2 = Some (dst !!! canon k2 ++ [v2])
  /\ (forall k, k <> canon k1 -> k <> canon k2 -> h !! k = dst !! k).
Proof.
  intros Hne h. subst h.
  assert (Hk : k1 <> k2) by congruence.
  set (src := <[k1 := [v1]]> (<[k2 := [v2]]> ∅) : Header).
  assert (Hkeys : forall k vs, src !! k = Some vs ->
            (k = k1 /\ vs = [v1]) \/ (k = k2 /\ vs = [v2])).
  { intros k vs. subst src. rewrite lookup_insert. case_decide.
    - intros [= <-]. by left.
    - rewrite lookup_insert. case_decide; [|by rewrite lookup_empty].
      intros [= <-]. by right. }
  destruct (copyHeaders_appends canon dst src) as [Hadd Hother].
  { intros a b [va Ha] [vb Hb] Hab.
    apply Hkeys in Ha as [[-> _]|[-> _]], Hb as [[-> _]|[-> _]]; congruence. }
  split_and!.
  - apply Hadd; [|done]. subst src. by rewrite lookup_insert_eq.
  - apply Hadd; [|done]. subst src.
    by rewrite lookup_insert_ne, lookup_insert_eq.
  - intros k H1 H2. apply Hother. intros key vs Hkey _.
    apply Hkeys in Hkey as [[-> _]|[-> _]]; congruence.
Qed.

Lemma render_JSONRender_WriteTo_Header j w :
  rw_Header (render.JSONRender_WriteTo canon j w).1
  = render.copyHeaders canon (rw_Header w)
      (render.Headers (render.JSONRender_NopRender j)).
Proof. unfold render.JSONRender_WriteTo, render.NopRender_WriteTo. by case_decide. Qed.

Lemma render_TextRender_WriteTo_Header t w :
  rw_Header (render.TextRender_WriteTo canon t w).1
  = render.copyHeaders canon (rw_Header w)
      (render.Headers (render.TextRender_NopRender t)).
Proof. unfold render.TextRender_WriteTo, render.NopRender_WriteTo. by case_decide. Qed.

(** X3: writing a [JSON] or [Text] render adds its Content-Type and
    Content-Length after the values that the writer's header map already
    holds under these keys, and leaves every other header of the writer as
    it was (the two keys having distinct canonical forms). *)
Theorem WriteTo_adds_headers (w : ResponseWriter) :
  canon render.HeaderContentTyp <> canon render.HeaderContentLen ->
  (forall data,
     let h := rw_Header (render.JSONRender_WriteTo canon
                           (render.JSON json_Marshal data) w).1 in
     h !! canon render.HeaderContentTyp
     = Some (rw_Header w !!! canon render.HeaderContentTyp
             ++ ["application/json; charset=utf-8"])
     /\ h !! canon render.HeaderContentLen
        = Some (rw_Header w !!! canon render.HeaderContentLen
                ++ [Itoa (len (json_Marshal data).1)])
     /\ (forall k, k <> canon render.HeaderContentTyp ->
           k <> canon render.HeaderContentLen -> h !! k = rw_Header w !! k))
  /\ (forall text,
     let h := rw_Header (render.TextRender_WriteTo canon (render.Text text) w).1 in
     h !! canon render.HeaderContentTyp
     = Some (rw_Header w !!! canon render.HeaderContentTyp
             ++ ["text/plain; charset=utf-8"])
     /\ h !! canon render.HeaderContentLen
        = Some (rw_Header w !!! canon render.HeaderContentLen
                ++ [Itoa (Z.of_nat (String.length text))])
     /\ (forall k, k <> canon render.HeaderContentTyp ->
           k <> canon render.HeaderContentLen -> h !! k = rw_Header w !! k)).
Proof.
  intros Hne. split.
  - intros data h. subst h. rewrite render_JSONRender_WriteTo_Header.
    by apply copyHeaders_two_keys.
  - intros text h. subst h. rewrite render_TextRender_WriteTo_Header.
    rewrite <- len_bytes_of_string. by apply copyHeaders_two_keys.
Qed.

(** X4: the body of a [Redirect] is the word redirect only when no text is
    given; otherwise it is the concatenation of the texts, which may be
    empty.  The location is stored under Location, and a status that is not
    positive is written as 200. *)
Theorem Redirect_body_and_status (status : Z) (location : string)
  (text : list string) (w : ResponseWriter) :
  let r := render.Redirect status location text in
  render.RedirectRender_Text r
  = match text with
    | [] => bytes_of_string "redirect"
    | _ => mjoin (bytes_of_string <$> text)
    end
  /\ render.Headers (render.RedirectRender_NopRender r) !! render.HeaderLocation
     = Some [location]
  /\ statuses (calls_during (render.RedirectRender_WriteTo canon r) w)
     = [if decide (status > 0)%Z then status else 200%Z]
  /\ body (calls_during (render.RedirectRender_WriteTo canon r) w)
     = render.RedirectRender_Text r.
Proof.
  intros r. rewrite render_RedirectRender_WriteTo_calls, body_WriteHeader_Write.
  subst r. split_and!; [| by simplify_map_eq | done | done].
  simpl. destruct text as [|t text]; [done|].
  rewrite decide_True by (unfold len; simpl; lia).
  apply bytes_of_Join_nosep.
Qed.

(** Serving a handler whose result is a status line, headers and a body. *)
Lemma ServeHTTP_body_render (n : render.NopRender) (b : bytes) w req s :
  let r := render.mkRender (fun w =>
             let '(w, _) := render.NopRender_WriteTo canon n w in
             let '(w, errW) := Write w b in (w, errW)) in
  let st := if decide (render.Status n > 0)%Z then render.Status n else 200%Z in
  let hdr := render.copyHeaders canon (rw_Header w) (render.Headers n) in
  let err := rw_writeErr w hdr (rw_calls w ++ [CallWriteHeader st]) b in
  let out := ServeHTTP (fun _ _ s => (r, s)) w req s in
  rw_calls out.1
  = rw_calls w ++ [CallWriteHeader st; CallWrite b]
    ++ match err with
       | Some e => [CallWriteHeader 500; CallWrite (bytes_of_string (Error e))]
       | None => []
       end
  /\ rw_Header out.1 = hdr
  /\ out.2 = s.
Proof.
  intros r st hdr err out. subst out r. unfold clover.ServeHTTP. simpl.
  unfold render.NopRender_WriteTo. fold st. fold hdr.
  assert (Hw : (if decide (render.Status n > 0)%Z
                then WriteHeader (with_Header w hdr) (render.Status n)
                else WriteHeader (with_Header w hdr) StatusOK)
               = WriteHeader (with_Header w hdr) st).
  { subst st. by case_decide. }
  rewrite Hw. simpl. fold err. destruct err as [e|]; simpl.
  - split_and!; [| done..]. by rewrite <- !app_assoc.
  - split_and!; [| done..]. by rewrite <- !app_assoc.
Qed.

(** X5: when a handler returns one of the renders of package render,
    [ServeHTTP] first calls [WriteHeader] with the status of the render (200
    if it is not positive), then [Write] with the body; if that [Write]
    fails it goes on with [WriteHeader(500)] and [Write] of the error text,
    and otherwise makes no further call.  The fallback calls are therefore
    never the first calls: the first status that the writer receives is
    the render's own (whatever that is), the fallback's 500 comes second,
    and the error text follows the body. *)
Theorem ServeHTTP_builtin_render (r : render.Render) (n : render.NopRender)
  (b : bytes) (w : ResponseWriter) (req : Request) (s : State) :
  (exists j, r = render.JSONRender_Render canon j
             /\ n = render.JSONRender_NopRender j /\ b = render.Data j)
  \/ (exists t, r = render.TextRender_Render canon t
                /\ n = render.TextRender_NopRender t /\ b = render.TextRender_Text t)
  \/ (exists d, r = render.RedirectRender_Render canon d
                /\ n = render.RedirectRender_NopRender d
                /\ b = render.RedirectRender_Text d) ->
  let st := if decide (render.Status n > 0)%Z then render.Status n else 200%Z in
  let hdr := render.copyHeaders canon (rw_Header w) (render.Headers n) in
  let err := rw_writeErr w hdr (rw_calls w ++ [CallWriteHeader st]) b in
  let out := ServeHTTP (fun _ _ s => (r, s)) w req s in
  let new := drop (length (rw_calls w)) (rw_calls out.1) in
  new = [CallWriteHeader st; CallWrite b]
        ++ match err with
           | Some e => [CallWriteHeader 500; CallWrite (bytes_of_string (Error e))]
           | None => []
           end
  /\ head (statuses new) = Some st
  /\ statuses new = st :: match err with
                          | Some _ => [StatusInternalServerError]
                          | None => []
                          end
  /\ body new = b ++ match err with
                     | Some e => bytes_of_string (Error e)
                     | None => []
                     end
  /\ rw_Header out.1 = hdr.
Proof.
  intros Hr st hdr err out new.
  assert (H : rw_calls out.1
              = rw_calls w ++ [CallWriteHeader st; CallWrite b]
                ++ match err with
                   | Some e => [CallWriteHeader 500;
                                CallWrite (bytes_of_string (Error e))]
                   | None => []
                   end
              /\ rw_Header out.1 = hdr).
  { destruct (ServeHTTP_body_render n b w req s) as (H1 & H2 & _).
    subst out.
    destruct Hr as [(j & -> & -> & ->) | [(t & -> & -> & ->) | (d & -> & -> & ->)]];
      split; first [exact H1 | exact H2]. }
  destruct H as [Hc Hh]. subst new. rewrite Hc, drop_app_length.
  split_and!; [done | done | by destruct err | | done].
  unfold body. destruct err; simpl; by rewrite ?app_nil_r.
Qed.

(** X6: a failure of [json.Marshal] is not reported.  Whatever error it
    returns with its bytes, a handler that returns [JSON(data)] is served
    with status 200 and those bytes as the body, with no fallback to 500
    when the [Write] succeeds; the stored Content-Length is the length of
    those bytes, 0 for the nil slice that [json.Marshal] returns on failure. *)
Theorem JSON_marshal_error_dropped (data : Value) (bs : bytes) (e : error)
  (w : ResponseWriter) (req : Request) (s : State) :
  json_Marshal data = (bs, Some e) ->
  (forall hdr cs, rw_writeErr w hdr cs bs = None) ->
  let r := render.JSON json_Marshal data in
  let out := ServeHTTP (fun _ _ s => (render.JSONRender_Render canon r, s)) w req s in
  drop (length (rw_calls w)) (rw_calls out.1) = [CallWriteHeader 200; CallWrite bs]
  /\ render.Headers (render.JSONRender_NopRender r) !! render.HeaderContentLen
     = Some [Itoa (len bs)]
  /\ (bs = [] -> render.Headers (render.JSONRender_NopRender r)
                 !! render.HeaderContentLen = Some ["0"]).
Proof.
  intros Hm Hw r out.
  pose proof (ServeHTTP_body_render (render.JSONRender_NopRender r) (render.Data r)
                w req s) as (H1 & _ & _).
  apply (f_equal (drop (length (rw_calls w)))) in H1.
  rewrite drop_app_length in H1.
  subst out r. unfold render.JSON in *. rewrite Hm in *.
  cbn [fst render.Data render.JSONRender_NopRender render.Status render.Headers] in *.
  rewrite Hw in H1.
  split_and!; [exact H1 | by simplify_map_eq |].
  intros ->. by simplify_map_eq.
Qed.

End written_facts.

(** ** Request accessors, composed *)

Section request_more_facts.
Import http.
Variable CanonicalMIMEHeaderKey : string -> string.
Variable url_ParseQuery : string -> clover.Values.
Variable ParseForm : clover.http_Request -> clover.http_Request.

Local Abbreviation canon := CanonicalMIMEHeaderKey.
Local Abbreviation Header_ := (clover.request_Header CanonicalMIMEHeaderKey).
Local Abbreviation HeaderDefault := (clover.HeaderDefault CanonicalMIMEHeaderKey).
Local Abbreviation Query := (clover.Query url_ParseQuery).
Local Abbreviation QueryDefault := (clover.QueryDefault url_ParseQuery).
Local Abbreviation PostForm := (clover.PostForm ParseForm).
Local Abbreviation PostFormDefault := (clover.PostFormDefault ParseForm).

Lemma Query_state req name :
  (Query req name).2
  = clover.mkrequest (clover.raw req)
      (Some (default (clover.URL_Query url_ParseQuery
                        (clover.Request_URL (clover.raw req)))
               (clover.urlQuery req))).
Proof.
  unfold clover.Query. destruct req as [rw [q|]]; cbn -[clover.index];
    by destruct (clover.index _ name).
Qed.

Lemma PostForm_state req name :
  (PostForm req name).2
  = clover.mkrequest (ParseForm (clover.raw req)) (clover.urlQuery req).
Proof.
  unfold clover.PostForm. cbn -[clover.index]. by destruct (clover.index _ name).
Qed.

Lemma Default_of_pair (v defaultValue : string) :
  (if decide (v ≠ "") then v else defaultValue)
  = if String.eqb v "" then defaultValue else v.
Proof. case_decide; destruct (String.eqb_spec v ""); congruence. Qed.

Lemma HeaderDefault_alt req name d :
  HeaderDefault req name d
  = if String.eqb (Header_ req name).1 "" then d else (Header_ req name).1.
Proof.
  unfold clover.HeaderDefault. destruct (clover.request_Header _ _ _) as [v b].
  by apply Default_of_pair.
Qed.

Lemma QueryDefault_alt req name d :
  QueryDefault req name d
  = (if String.eqb (Query req name).1.1 "" then d else (Query req name).1.1,
     (Query req name).2).
Proof.
  unfold clover.QueryDefault. destruct (clover.Query _ _ _) as [[v b] r]. simpl.
  rewrite <- (Default_of_pair v d). by case_decide.
Qed.

Lemma PostFormDefault_alt req name d :
  PostFormDefault req name d
  = (if String.eqb (PostForm req name).1.1 "" then d else (PostForm req name).1.1,
     (PostForm req name).2).
Proof.
  unfold clover.PostFormDefault. destruct (clover.PostForm _ _ _) as [[v b] r]. simpl.
  rewrite <- (Default_of_pair v d). by case_decide.
Qed.

(** X7: the URL query is parsed at most once for a request wrapper.  A call
    of [Query] leaves the request behind the wrapper as it is and fills the
    cache; from then on [Query] answers from the cache, whatever has become
    of the request (a rewritten URL is not seen), and changes nothing. *)
Theorem Query_parses_once (req : clover.request) (name : string) :
  let r1 := (Query req name).2 in
  clover.raw r1 = clover.raw req
  /\ clover.urlQuery r1
     = Some (default (clover.URL_Query url_ParseQuery
                        (clover.Request_URL (clover.raw req)))
               (clover.urlQuery req))
  /\ (forall raw' name',
        let r2 := clover.mkrequest raw' (clover.urlQuery r1) in
        Query r2 name' = ((Query req name').1, r2)).
Proof.
  intros r1. subst r1. rewrite Query_state. split_and!; [done | done |].
  intros raw' name' r2. subst r2.
  unfold clover.Query. destruct req as [rw [q|]]; cbn -[clover.index];
    by destruct (clover.index _ name').
Qed.

(** X8: with a default that is not the empty string, [HeaderDefault],
    [QueryDefault] and [PostFormDefault] never return the empty string;
    with the empty string as default they return what [Header], [Query]
    and [PostForm] return.  The [...Default] variants leave the wrapper in
    the state in which the plain accessors leave it. *)
Theorem Default_never_empty (req : clover.request) (name defaultValue : string) :
  (defaultValue <> "" ->
     HeaderDefault req name defaultValue <> ""
     /\ (QueryDefault req name defaultValue).1 <> ""
     /\ (PostFormDefault req name defaultValue).1 <> "")
  /\ HeaderDefault req name "" = (Header_ req name).1
  /\ (QueryDefault req name "").1 = (Query req name).1.1
  /\ (PostFormDefault req name "").1 = (PostForm req name).1.1
  /\ (QueryDefault req name defaultValue).2 = (Query req name).2
  /\ (PostFormDefault req name defaultValue).2 = (PostForm req name).2.
Proof.
  rewrite !HeaderDefault_alt, !QueryDefault_alt, !PostFormDefault_alt. simpl.
  split_and!; try done.
  - intros Hd. split_and!.
    + by destruct (String.eqb_spec (Header_ req name).1 "").
    + by destruct (String.eqb_spec (Query req name).1.1 "").
    + by destruct (String.eqb_spec (PostForm req name).1.1 "").
  - by destruct (String.eqb_spec (Header_ req name).1 "").
  - by destruct (String.eqb_spec (Query req name).1.1 "").
  - by destruct (String.eqb_spec (PostForm req name).1.1 "").
Qed.

(** X9: [Header] looks the name up in canonical form.  Two names with the
    same canonical form give the same result, and values stored in the
    header map under a key that is not in canonical form are not found
    under that key when its canonical form holds nothing. *)
Theorem Header_name_canonical (req : clover.request) :
  (forall n1 n2, canon n1 = canon n2 ->
     Header_ req n1 = Header_ req n2
     /\ forall d, HeaderDefault req n1 d = HeaderDefault req n2 d)
  /\ (forall key vs,
        clover.Request_Header (clover.raw req) !! key = Some vs ->
        clover.Request_Header (clover.raw req) !! canon key = None ->
        Header_ req key = ("", false)
        /\ forall d, HeaderDefault req key d = d).
Proof.
  split.
  - intros n1 n2 Hn. unfold clover.HeaderDefault, clover.request_Header, Header_Values.
    by rewrite Hn.
  - intros key vs _ Hnone.
    assert (H : Header_ req key = ("", false)).
    { unfold clover.request_Header, Header_Values.
      by rewrite lookup_total_alt, Hnone. }
    split; [done|]. intros d. unfold clover.HeaderDefault. by rewrite H.
Qed.

(** X11: [Query] and [PostForm] do not disturb each other.  When
    [ParseForm] leaves the URL of the request as it is, calling [Query]
    and then [PostForm] gives the same two results and the same final
    state as calling them in the other order; when [ParseForm] run twice
    does what it does run once, a second [PostForm] gives what a first one
    would and changes nothing more. *)
Theorem Query_PostForm_compose (req : clover.request) (nq np : string) :
  (forall r, clover.Request_URL (ParseForm r) = clover.Request_URL r) ->
  (forall r, ParseForm (ParseForm r) = ParseForm r) ->
  (Query req nq).1 = (Query (PostForm req np).2 nq).1
  /\ (PostForm req np).1 = (PostForm (Query req nq).2 np).1
  /\ (PostForm (Query req nq).2 np).2 = (Query (PostForm req np).2 nq).2
  /\ PostForm (PostForm req nq).2 np = ((PostForm req np).1, (PostForm req nq).2).
Proof.
  intros Hurl Hidem. split_and!.
  - rewrite PostForm_state.
    unfold clover.Query. destruct req as [rw [q|]]; cbn -[clover.index].
    + by destruct (clover.index q nq).
    + rewrite Hurl. by destruct (clover.index _ nq).
  - rewrite Query_state. unfold clover.PostForm. cbn -[clover.index].
    by destruct (clover.index _ np).
  - rewrite PostForm_state, Query_state, Query_state, PostForm_state. cbn.
    by rewrite Hurl.
  - rewrite PostForm_state. unfold clover.PostForm. cbn -[clover.index].
    rewrite Hidem. by destruct (clover.index _ np).
Qed.

End request_more_facts.

(** ** The variables page of the profiler *)

Section expVars_facts.
Import http middleware.
Variable CanonicalMIMEHeaderKey : string -> string.
Variable Quote : string -> string.

Local Abbreviation expVars := (middleware.expVars CanonicalMIMEHeaderKey Quote).
Local Abbreviation expVars_each := (middleware.expVars_each Quote).
Local Abbreviation entry := (middleware.entry Quote).
Local Abbreviation loop_text := (middleware.loop_text Quote).

Lemma body_app cs1 cs2 : body (cs1 ++ cs2) = body cs1 ++ body cs2.
Proof. unfold body. by rewrite omap_app, join_app. Qed.

Lemma statuses_app cs1 cs2 : statuses (cs1 ++ cs2) = statuses cs1 ++ statuses cs2.
Proof. unfold statuses. by rewrite omap_app. Qed.

Lemma Fprintf_written w text :
  body (rw_calls (Fprintf w text)) = body (rw_calls w) ++ bytes_of_string text
  /\ statuses (rw_calls (Fprintf w text)) = statuses (rw_calls w)
  /\ rw_Header (Fprintf w text) = rw_Header w.
Proof.
  unfold Fprintf. simpl. rewrite body_app, statuses_app. split_and!; [| | done].
  - unfold body. simpl. by rewrite app_nil_r.
  - simpl. by rewrite app_nil_r.
Qed.

Lemma expVars_loop vars :
  forall first w,
    let r := foldl expVars_each (first, w) vars in
    body (rw_calls r.2) = body (rw_calls w) ++ bytes_of_string (loop_text first vars)
    /\ statuses (rw_calls r.2) = statuses (rw_calls w)
    /\ rw_Header r.2 = rw_Header w.
Proof.
  induction vars as [|kv vars IH]; intros first w; simpl.
  - by rewrite app_nil_r.
  - destruct (IH false
      (Fprintf (if negb first then Fprintf w ("," +:+ LF) else w)
         (Quote (Key kv) +:+ ": " +:+ Value kv))) as (Hb & Hs & Hh).
    rewrite Hb, Hs, Hh.
    destruct (Fprintf_written (if negb first then Fprintf w ("," +:+ LF) else w)
                (Quote (Key kv) +:+ ": " +:+ Value kv)) as (Hb1 & Hs1 & Hh1).
    rewrite Hb1, Hs1, Hh1.
    destruct first; cbn [negb middleware.loop_text]; unfold middleware.entry.
    + rewrite !bytes_of_string_app. split_and!; [| done..].
      change (bytes_of_string "") with (@nil byte). by rewrite <- !app_assoc.
    + destruct (Fprintf_written w ("," +:+ LF)) as (Hb2 & Hs2 & Hh2).
      rewrite Hb2, Hs2, Hh2. rewrite !bytes_of_string_app.
      split_and!; [| done..]. by rewrite <- !app_assoc.
Qed.

Lemma Join_loop_text e vars :
  Join (e :: (entry <$> vars)) ("," +:+ LF) = e +:+ loop_text false vars.
Proof.
  revert e. induction vars as [|kv vars IH]; intros e.
  - change (e = e +:+ ""). by rewrite append_nil_r.
  - change (Join (e :: (entry <$> kv :: vars)) ("," +:+ LF))
      with (e +:+ ("," +:+ LF) +:+ Join (entry kv :: (entry <$> vars)) ("," +:+ LF)).
    by rewrite IH.
Qed.

(** The loop with the flag [first] writes the entries joined by the
    separator. *)
Lemma loop_text_Join vars : loop_text true vars = Join (entry <$> vars) ("," +:+ LF).
Proof.
  destruct vars as [|kv vars]; [done|].
  change (entry <$> kv :: vars) with (entry kv :: (entry <$> vars)).
  by rewrite Join_loop_text.
Qed.

(** X10: [expVars] sets the Content-Type of the writer to application/json,
    replacing what was stored under it, calls no [WriteHeader], and writes
    an opening brace and a line feed, the variables as quoted key, colon,
    space and value, separated by a comma and a line feed (none before the
    first, none after the last), and a line feed, a closing brace and a
    line feed; with no variable the two line feeds follow each other. *)
Theorem expVars_output (vars : list KeyValue) (w : ResponseWriter) :
  let out := expVars vars w in
  body (rw_calls out)
  = body (rw_calls w)
    ++ bytes_of_string ("{" +:+ LF +:+ Join (entry <$> vars) ("," +:+ LF)
                        +:+ LF +:+ "}" +:+ LF)
  /\ statuses (rw_calls out) = statuses (rw_calls w)
  /\ rw_Header out
     = <[CanonicalMIMEHeaderKey "Content-Type" := ["application/json"]]> (rw_Header w)
  /\ (vars = [] ->
      body (rw_calls out)
      = body (rw_calls w) ++ bytes_of_string ("{" +:+ LF +:+ LF +:+ "}" +:+ LF)).
Proof.
  intros out.
  assert (H : body (rw_calls out)
              = body (rw_calls w)
                ++ bytes_of_string ("{" +:+ LF +:+ Join (entry <$> vars) ("," +:+ LF)
                                    +:+ LF +:+ "}" +:+ LF)
              /\ statuses (rw_calls out) = statuses (rw_calls w)
              /\ rw_Header out
                 = <[CanonicalMIMEHeaderKey "Content-Type" := ["application/json"]]>
                     (rw_Header w)).
  { subst out. unfold middleware.expVars.
    remember (Fprintf (with_Header w _) _) as w0 eqn:Hw0.
    assert (H0 : body (rw_calls w0)
                 = body (rw_calls w) ++ bytes_of_string ("{" +:+ LF)
                 /\ statuses (rw_calls w0) = statuses (rw_calls w)
                 /\ rw_Header w0
                    = Header_Set CanonicalMIMEHeaderKey (rw_Header w)
                        "Content-Type" "application/json").
    { rewrite Hw0.
      exact (Fprintf_written
               (with_Header w (Header_Set CanonicalMIMEHeaderKey (rw_Header w)
                                 "Content-Type" "application/json"))
               ("{" +:+ LF)). }
    destruct H0 as (Hb0 & Hs0 & Hh0). clear Hw0.
    pose proof (expVars_loop vars true w0) as Hl. cbv zeta in Hl.
    destruct (foldl expVars_each (true, w0) vars) as [f w1].
    cbn [snd] in Hl. destruct Hl as (Hb & Hs & Hh).
    destruct (Fprintf_written w1 (LF +:+ "}" +:+ LF)) as (Hb1 & Hs1 & Hh1).
    rewrite Hb1, Hs1, Hh1, Hb, Hs, Hh, Hb0, Hs0, Hh0, loop_text_Join.
    split_and!; [| done..].
    rewrite !bytes_of_string_app. by rewrite <- !app_assoc. }
  destruct H as (Hb & Hs & Hh). split_and!; [done.. |].
  intros ->. exact Hb.
Qed.

End expVars_facts.

(** ** Instances of the further properties *)

(** Two headers, ranged over in the order in which they were written down. *)
Lemma copyHeaders_order_independent_witness :
  let src : gmap string (list string) := <["A" := ["1"]]> {["B" := ["2"]]} in
  let entries := [("A", ["1"]); ("B", ["2"])] in
  entries ≡ₚ map_to_list src
  /\ (forall k1 k2 : string, is_Some (src !! k1) -> is_Some (src !! k2) ->
        k1 = k2 -> k1 = k2)
  /\ render.copyHeaders (fun k => k) ∅ src = http.add_entries (fun k => k) entries ∅.
Proof.
  intros src entries.
  assert (Hp : entries ≡ₚ map_to_list src).
  { subst src entries. rewrite map_to_list_insert by done.
    by rewrite map_to_list_singleton. }
  split; [exact Hp|]. split; [done|].
  exact (proj1 (copyHeaders_order_independent (fun k => k) ∅ src entries Hp
                  (fun k1 k2 _ _ H => H))).
Defined.

(** A value already on the writer stays first. *)
Lemma copyHeaders_appends_witness :
  let src : gmap string (list string) := <["A" := ["1"]]> {["B" := ["2"]]} in
  let dst : gmap string (list string) := {["A" := ["0"]]} in
  src !! "A" = Some ["1"]
  /\ render.copyHeaders (fun k => k) dst src !! "A" = Some ["0"; "1"].
Proof.
  intros src dst.
  assert (H : src !! "A" = Some ["1"]) by (vm_compute; reflexivity).
  split; [exact H|].
  exact (proj1 (copyHeaders_appends (fun k => k) dst src (fun k1 k2 _ _ H => H))
           "A" ["1"] H ltac:(discriminate)).
Defined.

(** A [JSON] render written to a writer without headers. *)
Lemma WriteTo_adds_headers_witness :
  let w := http.mkResponseWriter ∅ [] (fun _ _ _ => None) in
  let marshal := fun s : string => (bytes_of_string s, @None error) in
  render.HeaderContentTyp <> render.HeaderContentLen
  /\ http.rw_Header
       (render.JSONRender_WriteTo (fun k => k) (render.JSON marshal "{}") w).1
     !! "Content-Length" = Some ["2"].
Proof.
  intros w marshal.
  assert (H : render.HeaderContentTyp <> render.HeaderContentLen) by discriminate.
  split; [exact H|].
  exact (proj1 (proj2 (proj1 (WriteTo_adds_headers (fun k => k) string marshal w H)
                         "{}"))).
Defined.

(** A [Text] render served through a writer whose [Write] fails. *)
Lemma ServeHTTP_builtin_render_witness :
  let w := http.mkResponseWriter ∅ [] (fun _ _ _ => Some (mkError "closed")) in
  let t := render.Text "hi" in
  let out := clover.ServeHTTP unit unit (fun _ => tt) unit
               (fun _ _ s => (render.TextRender_Render (fun k => k) t, s)) w tt tt in
  http.rw_calls out.1
  = [http.CallWriteHeader 200; http.CallWrite (bytes_of_string "hi");
     http.CallWriteHeader 500; http.CallWrite (bytes_of_string "closed")].
Proof.
  intros w t out.
  exact (proj1 (ServeHTTP_builtin_render (fun k => k) unit unit (fun _ => tt) unit
                  (render.TextRender_Render (fun k => k) t)
                  (render.TextRender_NopRender t) (render.TextRender_Text t)
                  w tt tt
                  (or_intror (or_introl
                     (ex_intro _ t (conj eq_refl (conj eq_refl eq_refl))))))).
Defined.

(** A marshaler that fails, as [json.Marshal] does on a channel. *)
Lemma JSON_marshal_error_dropped_witness :
  let w := http.mkResponseWriter ∅ [] (fun _ _ _ => None) in
  let marshal := fun _ : unit => (@nil byte, Some (mkError "unsupported type")) in
  let out := clover.ServeHTTP unit unit (fun _ => tt) unit
               (fun _ _ s => (render.JSONRender_Render (fun k => k)
                                (render.JSON marshal tt), s)) w tt tt in
  marshal tt = ([], Some (mkError "unsupported type"))
  /\ http.rw_calls out.1 = [http.CallWriteHeader 200; http.CallWrite []].
Proof.
  intros w marshal out. split; [reflexivity|].
  exact (proj1 (JSON_marshal_error_dropped (fun k => k) unit marshal unit unit
                  (fun _ => tt) unit tt [] (mkError "unsupported type") w tt tt
                  eq_refl (fun _ _ => eq_refl))).
Defined.

(** A header that is missing, with a default. *)
Lemma Default_never_empty_witness :
  let req :=
    clover.mkrequest
      (clover.mkRequest (clover.mkURL "/" "") "/" "127.0.0.1:1" ∅ None) None in
  "en" <> ""
  /\ clover.HeaderDefault (fun k => k) req "Accept-Language" "en" <> "".
Proof.
  intros req.
  assert (H : "en" <> "") by discriminate.
  split; [exact H|].
  exact (proj1 (proj1 (Default_never_empty (fun k => k) (fun _ => ∅) (fun r => r)
                         req "Accept-Language" "en") H)).
Defined.

(** Two spellings of one header name. *)
Lemma Header_name_canonical_witness :
  let canon := fun k : string => if String.eqb k "x-token" then "X-Token" else k in
  let req :=
    clover.mkrequest
      (clover.mkRequest (clover.mkURL "/" "") "/" "127.0.0.1:1"
         {["X-Token" := ["abc"]]} None) None in
  canon "x-token" = canon "X-Token"
  /\ clover.request_Header canon req "x-token"
     = clover.request_Header canon req "X-Token".
Proof.
  intros canon req. split; [reflexivity|].
  exact (proj1 (proj1 (Header_name_canonical canon req) "x-token" "X-Token" eq_refl)).
Defined.

(** No exported variable. *)
Lemma expVars_output_witness :
  let w := http.mkResponseWriter ∅ [] (fun _ _ _ => None) in
  http.body (http.rw_calls (middleware.expVars (fun k => k) (fun s => s) [] w))
  = bytes_of_string ("{" +:+ middleware.LF +:+ middleware.LF +:+ "}" +:+ middleware.LF).
Proof.
  intros w.
  exact (proj2 (proj2 (proj2 (expVars_output (fun k => k) (fun s => s) [] w)))
           eq_refl).
Defined.

(** A form parser that changes nothing. *)
Lemma Query_PostForm_compose_witness :
  let req :=
    clover.mkrequest
      (clover.mkRequest (clover.mkURL "/" "a=1") "/?a=1" "127.0.0.1:1" ∅
         (Some {["b" := ["2"]]})) None in
  let parse := fun _ : string => ({["a" := ["1"]]} : gmap string (list string)) in
  (forall r : clover.http_Request, clover.Request_URL r = clover.Request_URL r)
  /\ (clover.Query parse req "a").1
     = (clover.Query parse (clover.PostForm (fun r => r) req "b").2 "a").1.
Proof.
  intros req parse. split; [done|].
  exact (proj1 (Query_PostForm_compose parse (fun r => r) req "a" "b"
                  (fun _ => eq_refl) (fun _ => eq_refl))).
Defined.
